(** * Local persistence and backup/restore of the squaredance profile

    Shallow embedding of [src/utils/backup.ts], [src/schemas/index.ts]
    and [src/utils/local-storage.ts] (the zod schemas, the localStorage
    helpers and the backup codec).

    Modelling choices:
    - A JS value that can cross a JSON boundary is a [json] tree.  Objects
      are association lists; property lookup takes the LAST binding of a
      key, which is what [JSON.parse] does with duplicated keys.
    - A JS number is an exact decimal [Dec m e] (value [m * 10^e]).  The
      parser keeps the digits exactly, where [JSON.parse] rounds to a
      double (["1e400"] becomes Infinity, ["1.00000000000000001"]
      becomes 1); NaN, the infinities and [-0] are not modelled.
    - JSON text is a list of 8-bit characters ([list ascii]); a [\u]
      escape above 0xFF is refused by the parser.
    - [localStorage] is a [gmap] from keys to values together with a
      quota; when the store is unavailable every access throws. *)

From Stdlib Require Import ZArith List Ascii String Lia.
From stdpp Require Import base gmap strings.
Import ListNotations.

#[local] Set Warnings "-register-all".
Open Scope Z_scope.

(* ------------------------------------------------------------------ *)
(** ** JS values crossing JSON boundaries *)

Record num := Dec { mant : Z; ex10 : Z }.

Inductive json : Type :=
| JNull
| JBool (b : bool)
| JNum (n : num)
| JStr (s : string)
| JArr (l : list json)
| JObj (l : list (string * json)).

(** Property access [o[k]]: [None] is [undefined]. *)
Fixpoint prop_lookup (k : string) (l : list (string * json)) : option json :=
  match l with
  | [] => None
  | (k', v) :: r =>
      match prop_lookup k r with
      | Some w => Some w
      | None => if String.eqb k k' then Some v else None
      end
  end.

(* ------------------------------------------------------------------ *)
(** ** [JSON.stringify] *)

Module Text.

Definition chr (n : nat) : ascii := ascii_of_nat n.

Definition c_quote : ascii := "034"%char.
Definition c_bslash : ascii := "092"%char.
Definition c_comma : ascii := "044"%char.
Definition c_colon : ascii := "058"%char.
Definition c_lbrack : ascii := "091"%char.
Definition c_rbrack : ascii := "093"%char.
Definition c_lbrace : ascii := "123"%char.
Definition c_rbrace : ascii := "125"%char.
Definition c_minus : ascii := "045"%char.
Definition c_plus : ascii := "043"%char.
Definition c_dot : ascii := "046"%char.
Definition c_e : ascii := "101"%char.
Definition c_E : ascii := "069"%char.

Definition lit (s : string) : list ascii := list_ascii_of_string s.

(** Decimal digits of [n >= 0], most significant first. *)
Fixpoint digs (fuel : nat) (n : Z) : list Z :=
  match fuel with
  | O => [n]
  | S f => if n <? 10 then [n] else digs f (n / 10) ++ [n mod 10]
  end.

Definition digits_of (n : Z) : list Z := digs (S (Z.to_nat (Z.log2 n))) n.

Definition digit_chr (d : Z) : ascii := chr (48 + Z.to_nat d).

Definition print_nat (n : Z) : list ascii := map digit_chr (digits_of n).

Definition print_int (n : Z) : list ascii :=
  if n <? 0 then c_minus :: print_nat (- n) else print_nat n.

(** Integers are written as [JSON.stringify] writes them; any other
    number is written in mantissa/exponent form ([15e-1] for 1.5), a
    spelling of the same value that [JSON.parse] reads back. *)
Definition print_num (x : num) : list ascii :=
  if ex10 x =? 0 then print_int (mant x)
  else print_int (mant x) ++ c_e :: print_int (ex10 x).

Definition hex_chr (d : nat) : ascii :=
  if Nat.ltb d 10 then chr (48 + d) else chr (87 + d).

(** One character of a string literal, escaped as [JSON.stringify] does. *)
Definition escape (c : ascii) : list ascii :=
  let n := nat_of_ascii c in
  if Nat.eqb n 34 then [c_bslash; c_quote]
  else if Nat.eqb n 92 then [c_bslash; c_bslash]
  else if Nat.eqb n 8 then [c_bslash; chr 98]
  else if Nat.eqb n 12 then [c_bslash; chr 102]
  else if Nat.eqb n 10 then [c_bslash; chr 110]
  else if Nat.eqb n 13 then [c_bslash; chr 114]
  else if Nat.eqb n 9 then [c_bslash; chr 116]
  else if Nat.ltb n 32 then
    [c_bslash; chr 117; chr 48; chr 48; hex_chr (Nat.div n 16); hex_chr (Nat.modulo n 16)]
  else [c].

Definition print_str (s : string) : list ascii :=
  c_quote :: flat_map escape (list_ascii_of_string s) ++ [c_quote].

Fixpoint sep_concat (l : list (list ascii)) : list ascii :=
  match l with
  | [] => []
  | [x] => x
  | x :: r => x ++ c_comma :: sep_concat r
  end.

Fixpoint print (j : json) : list ascii :=
  match j with
  | JNull => lit "null"
  | JBool true => lit "true"
  | JBool false => lit "false"
  | JNum x => print_num x
  | JStr s => print_str s
  | JArr l => c_lbrack :: sep_concat (map print l) ++ [c_rbrack]
  | JObj l =>
      c_lbrace ::
        sep_concat (map (fun kv => print_str (fst kv) ++ c_colon :: print (snd kv)) l)
        ++ [c_rbrace]
  end.

(* ------------------------------------------------------------------ *)
(** ** [JSON.parse] *)

(** [JSON.stringify(v, null, 2)]: a non-empty array or object puts each
    element on a line of its own, indented by two more spaces than the
    enclosing value, and a space after each key's colon; empty arrays and
    objects and the other values are written as by [JSON.stringify(v)]. *)
Definition c_nl : ascii := "010"%char.
Definition c_space : ascii := "032"%char.

Definition nl_indent (ind : nat) : list ascii := c_nl :: repeat c_space ind.

Fixpoint join (sep : list ascii) (l : list (list ascii)) : list ascii :=
  match l with
  | [] => []
  | [x] => x
  | x :: r => x ++ sep ++ join sep r
  end.

Fixpoint pretty (ind : nat) (j : json) : list ascii :=
  match j with
  | JArr l =>
      match l with
      | [] => [c_lbrack; c_rbrack]
      | _ => c_lbrack :: nl_indent (ind + 2) ++
               join (c_comma :: nl_indent (ind + 2)) (map (pretty (ind + 2)) l) ++
               nl_indent ind ++ [c_rbrack]
      end
  | JObj l =>
      match l with
      | [] => [c_lbrace; c_rbrace]
      | _ => c_lbrace :: nl_indent (ind + 2) ++
               join (c_comma :: nl_indent (ind + 2))
                 (map (fun kv => print_str (fst kv) ++ c_colon :: c_space :: pretty (ind + 2) (snd kv)) l) ++
               nl_indent ind ++ [c_rbrace]
      end
  | _ => print j
  end.

Definition is_ws (c : ascii) : bool :=
  let n := nat_of_ascii c in
  Nat.eqb n 32 || Nat.eqb n 9 || Nat.eqb n 10 || Nat.eqb n 13.

Fixpoint skipws (l : list ascii) : list ascii :=
  match l with
  | c :: r => if is_ws c then skipws r else l
  | [] => []
  end.

Definition is_digit (c : ascii) : bool :=
  Nat.leb 48 (nat_of_ascii c) && Nat.leb (nat_of_ascii c) 57.

Definition digit_val (c : ascii) : Z := Z.of_nat (nat_of_ascii c) - 48.

Fixpoint span_digits (l : list ascii) : list ascii * list ascii :=
  match l with
  | c :: r =>
      if is_digit c then let (ds, rest) := span_digits r in (c :: ds, rest)
      else ([], l)
  | [] => ([], [])
  end.

Definition digits_val (ds : list ascii) : Z :=
  fold_left (fun acc c => acc * 10 + digit_val c) ds 0.

(** [int = "0" | [1-9][0-9]*] *)
Definition parse_int_part (l : list ascii) : option (list ascii * list ascii) :=
  let (ds, rest) := span_digits l in
  match ds with
  | [] => None
  | [_] => Some (ds, rest)
  | d :: _ => if Ascii.eqb d (chr 48) then None else Some (ds, rest)
  end.

(** [frac = ("." [0-9]+)?] *)
Definition parse_frac (l : list ascii) : option (list ascii * list ascii) :=
  match l with
  | c :: r =>
      if Ascii.eqb c c_dot then
        let (ds, rest) := span_digits r in
        match ds with [] => None | _ => Some (ds, rest) end
      else Some ([], l)
  | [] => Some ([], [])
  end.

(** Sign of an exponent *)
Definition exp_sign (r : list ascii) : Z * list ascii :=
  match r with
  | c :: r' =>
      if Ascii.eqb c c_minus then (-1, r')
      else if Ascii.eqb c c_plus then (1, r') else (1, r)
  | [] => (1, [])
  end.

(** [exp = ([eE] [+-]? [0-9]+)?] *)
Definition parse_exp (l : list ascii) : option (Z * list ascii) :=
  match l with
  | c :: r =>
      if Ascii.eqb c c_e || Ascii.eqb c c_E then
        let '(sg, r1) := exp_sign r in
        let (ds, rest) := span_digits r1 in
        match ds with [] => None | _ => Some (sg * digits_val ds, rest) end
      else Some (0, l)
  | [] => Some (0, [])
  end.

(** Sign of a number *)
Definition split_sign (l : list ascii) : bool * list ascii :=
  match l with
  | c :: r => if Ascii.eqb c c_minus then (true, r) else (false, l)
  | [] => (false, [])
  end.

Definition parse_number (l : list ascii) : option (num * list ascii) :=
  let '(neg, l1) := split_sign l in
  match parse_int_part l1 with
  | None => None
  | Some (ip, l2) =>
      match parse_frac l2 with
      | None => None
      | Some (fp, l3) =>
          match parse_exp l3 with
          | None => None
          | Some (x, l4) =>
              let m := digits_val (ip ++ fp) in
              Some (Dec (if neg then - m else m) (x - Z.of_nat (length fp)), l4)
          end
      end
  end.

Definition hex_val (c : ascii) : option nat :=
  let n := nat_of_ascii c in
  if Nat.leb 48 n && Nat.leb n 57 then Some (n - 48)%nat
  else if Nat.leb 97 n && Nat.leb n 102 then Some (n - 87)%nat
  else if Nat.leb 65 n && Nat.leb n 70 then Some (n - 55)%nat
  else None.

(** The character denoted by [\e] for a one-letter escape [e]. *)
Definition unescape (n : nat) : option ascii :=
  if Nat.eqb n 34 then Some c_quote
  else if Nat.eqb n 92 then Some c_bslash
  else if Nat.eqb n 47 then Some (chr 47)
  else if Nat.eqb n 98 then Some (chr 8)
  else if Nat.eqb n 102 then Some (chr 12)
  else if Nat.eqb n 110 then Some (chr 10)
  else if Nat.eqb n 114 then Some (chr 13)
  else if Nat.eqb n 116 then Some (chr 9)
  else None.

Definition cons_fst {A B} (a : A) (o : option (list A * B)) : option (list A * B) :=
  match o with Some (s, r) => Some (a :: s, r) | None => None end.

(** Body of a string literal, after its opening quote.  A [\uXXXX]
    escape above 255 has no 8-bit character and is refused here. *)
Fixpoint parse_chars (l : list ascii) : option (list ascii * list ascii) :=
  match l with
  | [] => None
  | c :: r =>
      if Ascii.eqb c c_quote then Some ([], r)
      else if Ascii.eqb c c_bslash then
        match r with
        | [] => None
        | e :: r' =>
            if Nat.eqb (nat_of_ascii e) 117 then
              match r' with
              | h1 :: h2 :: h3 :: h4 :: r'' =>
                  match hex_val h1, hex_val h2, hex_val h3, hex_val h4 with
                  | Some a, Some b, Some d, Some f =>
                      let v := (a * 4096 + b * 256 + d * 16 + f)%nat in
                      if Nat.ltb v 256 then cons_fst (ascii_of_nat v) (parse_chars r'')
                      else None
                  | _, _, _, _ => None
                  end
              | _ => None
              end
            else
              match unescape (nat_of_ascii e) with
              | Some c' => cons_fst c' (parse_chars r')
              | None => None
              end
        end
      else if Nat.ltb (nat_of_ascii c) 32 then None
      else cons_fst c (parse_chars r)
  end.

Fixpoint strip_prefix (p l : list ascii) : option (list ascii) :=
  match p, l with
  | [], _ => Some l
  | c :: p', c' :: l' => if Ascii.eqb c c' then strip_prefix p' l' else None
  | _ :: _, [] => None
  end.

Definition starts_with (c : ascii) (l : list ascii) : bool :=
  match l with c' :: _ => Ascii.eqb c c' | [] => false end.

Fixpoint parse_value (fuel : nat) (l : list ascii) {struct fuel}
  : option (json * list ascii) :=
  match fuel with
  | O => None
  | S f =>
      match skipws l with
      | [] => None
      | c :: r =>
          if Ascii.eqb c c_quote then
            match parse_chars r with
            | Some (s, r') => Some (JStr (string_of_list_ascii s), r')
            | None => None
            end
          else if Ascii.eqb c c_lbrack then
            if starts_with c_rbrack (skipws r) then Some (JArr [], tl (skipws r))
            else match parse_elems f r with
                 | Some (vs, r') => Some (JArr vs, r')
                 | None => None
                 end
          else if Ascii.eqb c c_lbrace then
            if starts_with c_rbrace (skipws r) then Some (JObj [], tl (skipws r))
            else match parse_members f r with
                 | Some (ms, r') => Some (JObj ms, r')
                 | None => None
                 end
          else match strip_prefix (lit "null") (c :: r) with
          | Some r' => Some (JNull, r')
          | None =>
          match strip_prefix (lit "true") (c :: r) with
          | Some r' => Some (JBool true, r')
          | None =>
          match strip_prefix (lit "false") (c :: r) with
          | Some r' => Some (JBool false, r')
          | None =>
              match parse_number (c :: r) with
              | Some (x, r') => Some (JNum x, r')
              | None => None
              end
          end end end
      end
  end
with parse_elems (fuel : nat) (l : list ascii) {struct fuel}
  : option (list json * list ascii) :=
  match fuel with
  | O => None
  | S f =>
      match parse_value f l with
      | None => None
      | Some (v, r) =>
          match skipws r with
          | c :: r' =>
              if Ascii.eqb c c_comma then cons_fst v (parse_elems f r')
              else if Ascii.eqb c c_rbrack then Some ([v], r')
              else None
          | [] => None
          end
      end
  end
with parse_members (fuel : nat) (l : list ascii) {struct fuel}
  : option (list (string * json) * list ascii) :=
  match fuel with
  | O => None
  | S f =>
      match skipws l with
      | c :: r =>
          if Ascii.eqb c c_quote then
            match parse_chars r with
            | None => None
            | Some (k, r1) =>
                match skipws r1 with
                | c1 :: r2 =>
                    if Ascii.eqb c1 c_colon then
                      match parse_value f r2 with
                      | None => None
                      | Some (v, r3) =>
                          let kv := (string_of_list_ascii k, v) in
                          match skipws r3 with
                          | c3 :: r4 =>
                              if Ascii.eqb c3 c_comma then cons_fst kv (parse_members f r4)
                              else if Ascii.eqb c3 c_rbrace then Some ([kv], r4)
                              else None
                          | [] => None
                          end
                      end
                    else None
                | [] => None
                end
            end
          else None
      | [] => None
      end
  end.

End Text.

(** [JSON.parse]: [None] is a thrown [SyntaxError].  The fuel is a
    modelling device: every call of the parser either consumes a
    character or is followed by one that does, so twice the length of
    the text (plus two) never runs out on a well-formed document. *)
Definition json_parse (s : string) : option json :=
  let l := list_ascii_of_string s in
  match Text.parse_value (2 * length l + 2) l with
  | Some (j, r) => match Text.skipws r with [] => Some j | _ => None end
  | None => None
  end.

Definition stringify (j : json) : string := string_of_list_ascii (Text.print j).

(** [JSON.stringify(j, null, 2)] *)
Definition stringify_indent (j : json) : string := string_of_list_ascii (Text.pretty 0 j).

(* ------------------------------------------------------------------ *)
(** ** zod, as used by [src/schemas/index.ts] and [src/utils/backup.ts] *)

Module Zod.

(** [int()] failures are reported by zod as [invalid_type] (expected
    integer, received float). *)
Inductive issue_code := invalid_type | too_small | too_big | invalid_string.

Record issue := Issue { ipath : list string; icode : issue_code }.

(** Result of [schema.safeParse]: the parsed value or every issue found
    (zod keeps validating the other fields after a failure). *)
Inductive zres (A : Type) : Type :=
| ZOk (a : A)
| ZErr (es : list issue).
Arguments ZOk {A} a.
Arguments ZErr {A} es.

Definition zap {A B} (f : zres (A -> B)) (x : zres A) : zres B :=
  match f, x with
  | ZOk g, ZOk a => ZOk (g a)
  | ZErr e1, ZErr e2 => ZErr (e1 ++ e2)
  | ZErr e, ZOk _ => ZErr e
  | ZOk _, ZErr e => ZErr e
  end.

Definition zmap {A B} (g : A -> B) (x : zres A) : zres B :=
  match x with ZOk a => ZOk (g a) | ZErr e => ZErr e end.

(** A schema reads a property value; [None] is [undefined]. *)
Definition schema (A : Type) := option json -> zres A.

Definition fail1 {A} (c : issue_code) : zres A := ZErr [Issue [] c].

Definition checks {A} (cs : list (A -> bool * issue_code)) (a : A) : zres A :=
  match flat_map (fun chk : A -> bool * issue_code =>
                    let (b, c) := chk a in if b then [] else [Issue [] c]) cs with
  | [] => ZOk a
  | es => ZErr es
  end.

(** [z.string()] with its checks *)
Definition string_ (cs : list (string -> bool * issue_code)) : schema string :=
  fun v => match v with Some (JStr s) => checks cs s | _ => fail1 invalid_type end.

(** [z.number()] with its checks *)
Definition number_ (cs : list (num -> bool * issue_code)) : schema num :=
  fun v => match v with Some (JNum x) => checks cs x | _ => fail1 invalid_type end.

Definition boolean_ : schema bool :=
  fun v => match v with Some (JBool b) => ZOk b | _ => fail1 invalid_type end.

Definition optional {A} (s : schema A) : schema (option A) :=
  fun v => match v with None => ZOk None | Some _ => zmap Some (s v) end.

Definition nullable {A} (s : schema A) : schema (option A) :=
  fun v => match v with Some JNull => ZOk None | _ => zmap Some (s v) end.

(** [z.object(shape)]: the shape reads the properties it knows, unknown
    properties are dropped from the output. *)
Definition object_ {A} (shape : list (string * json) -> zres A) : schema A :=
  fun v => match v with Some (JObj l) => shape l | _ => fail1 invalid_type end.

Definition under (k : string) (i : issue) : issue := Issue (k :: ipath i) (icode i).

Definition field {A} (k : string) (s : schema A) (l : list (string * json)) : zres A :=
  match s (prop_lookup k l) with
  | ZOk a => ZOk a
  | ZErr es => ZErr (map (under k) es)
  end.

(** String checks *)
Definition min_len (n : nat) (s : string) := (Nat.leb n (String.length s), too_small).
Definition max_len (n : nat) (s : string) := (Nat.leb (String.length s) n, too_big).

Definition is_hex (c : ascii) : bool :=
  match Text.hex_val c with Some _ => true | None => false end.

Definition hex_group (n : nat) (l : list ascii) : option (list ascii) :=
  if Nat.leb n (length l) && forallb is_hex (firstn n l) then Some (skipn n l) else None.

(** zod's UUID pattern
    [^[0-9a-fA-F]{8}\b-[0-9a-fA-F]{4}\b-[0-9a-fA-F]{4}\b-[0-9a-fA-F]{4}\b-[0-9a-fA-F]{12}$] *)
Definition uuid_groups (l : list ascii) : bool :=
  match hex_group 8 l with
  | Some (d1 :: r1) =>
    Ascii.eqb d1 Text.c_minus &&
    match hex_group 4 r1 with
    | Some (d2 :: r2) =>
      Ascii.eqb d2 Text.c_minus &&
      match hex_group 4 r2 with
      | Some (d3 :: r3) =>
        Ascii.eqb d3 Text.c_minus &&
        match hex_group 4 r3 with
        | Some (d4 :: r4) =>
          Ascii.eqb d4 Text.c_minus &&
          match hex_group 12 r4 with Some [] => true | _ => false end
        | _ => false end
      | _ => false end
    | _ => false end
  | _ => false
  end.

Definition uuid (s : string) := (uuid_groups (list_ascii_of_string s), invalid_string).

(** Number checks, on the exact value [mant * 10^ex10]. *)
Definition num_is_int (x : num) : bool :=
  (0 <=? ex10 x) || (mant x mod 10 ^ (- ex10 x) =? 0).

Definition int_ (x : num) := (num_is_int x, invalid_type).
Definition positive_ (x : num) := (0 <? mant x, too_small).
Definition min0 (x : num) := (0 <=? mant x, too_small).

End Zod.

Import Zod.

(* ------------------------------------------------------------------ *)
(** ** [src/schemas/index.ts] *)

Record UserStats := mkUserStats {
  totalSessions : num;
  totalCalls : num;
  successfulSequences : num;
  failedSequences : num
}.

Record UserPreferences := mkUserPreferences {
  autoPlayAnimations : option bool;
  showFlowHints : option bool
}.

Record UserProfile := mkUserProfile {
  id : string;
  name : string;
  createdAt : num;
  stats : UserStats;
  preferences : option UserPreferences
}.

Definition count_ : schema num := number_ [int_; min0].

Definition UserStatsSchema : schema UserStats :=
  object_ (fun l =>
    zap (zap (zap (zmap mkUserStats
      (field "totalSessions" count_ l))
      (field "totalCalls" count_ l))
      (field "successfulSequences" count_ l))
      (field "failedSequences" count_ l)).

Definition UserPreferencesSchema : schema UserPreferences :=
  object_ (fun l =>
    zap (zmap mkUserPreferences
      (field "autoPlayAnimations" (optional boolean_) l))
      (field "showFlowHints" (optional boolean_) l)).

Definition UserProfileSchema : schema UserProfile :=
  object_ (fun l =>
    zap (zap (zap (zap (zmap mkUserProfile
      (field "id" (string_ [uuid]) l))
      (field "name" (string_ [min_len 1; max_len 20]) l))
      (field "createdAt" (number_ [int_; positive_]) l))
      (field "stats" UserStatsSchema l))
      (field "preferences" (optional UserPreferencesSchema) l)).

(** The object zod hands back for a parsed profile: the shape's keys in
    order, an absent optional key left out.  This is also the JS value
    [JSON.stringify] receives in [importBackup] and [saveToLocalStorage]. *)
Definition opt_field (k : string) (o : option json) : list (string * json) :=
  match o with Some j => [(k, j)] | None => [] end.

Definition stats_to_json (s : UserStats) : json :=
  JObj [("totalSessions", JNum (totalSessions s)); ("totalCalls", JNum (totalCalls s));
        ("successfulSequences", JNum (successfulSequences s));
        ("failedSequences", JNum (failedSequences s))].

Definition prefs_to_json (p : UserPreferences) : json :=
  JObj (opt_field "autoPlayAnimations" (option_map JBool (autoPlayAnimations p)) ++
        opt_field "showFlowHints" (option_map JBool (showFlowHints p))).

Definition profile_to_json (u : UserProfile) : json :=
  JObj ([("id", JStr (id u)); ("name", JStr (name u)); ("createdAt", JNum (createdAt u));
         ("stats", stats_to_json (stats u))] ++
        opt_field "preferences" (option_map prefs_to_json (preferences u))).

(* ------------------------------------------------------------------ *)
(** ** [localStorage] and the exception monad of the TS code *)

Inductive exn :=
| SyntaxError
| ZodError (es : list issue)
| QuotaExceededError
| SecurityError
| TypeError
| RangeError.

Inductive outcome (A : Type) : Type :=
| Ok (a : A)
| Throw (e : exn).
Arguments Ok {A} a.
Arguments Throw {A} e.

(** The browser store of one origin.  [Unavailable]: storage disabled
    (e.g. by privacy settings), every access throws.  An available store
    refuses a write that would take it over its quota. *)
Inductive storage :=
| Unavailable
| Available (items : gmap string string) (quota : N).

Definition M (A : Type) : Type := storage -> outcome A * storage.

Definition ret {A} (a : A) : M A := fun st => (Ok a, st).
Definition throw {A} (e : exn) : M A := fun st => (Throw e, st).
Definition bind {A B} (m : M A) (k : A -> M B) : M B :=
  fun st => match m st with
            | (Ok a, st') => k a st'
            | (Throw e, st') => (Throw e, st')
            end.
Definition try_catch {A} (m : M A) (h : exn -> M A) : M A :=
  fun st => match m st with
            | (Ok a, st') => (Ok a, st')
            | (Throw e, st') => h e st'
            end.

Notation "x <- m ;; k" := (bind m (fun x => k)) (at level 100, m at next level, right associativity).
Notation "m ;;; k" := (bind m (fun _ => k)) (at level 100, right associativity).

Definition store_size (m : gmap string string) : N :=
  map_fold (fun k v acc => N.of_nat (String.length k) + N.of_nat (String.length v) + acc)%N 0%N m.

Definition getItem (k : string) : M (option string) :=
  fun st => match st with
            | Unavailable => (Throw SecurityError, st)
            | Available m _ => (Ok (m !! k), st)
            end.

Definition setItem (k v : string) : M unit :=
  fun st => match st with
            | Unavailable => (Throw SecurityError, st)
            | Available m q =>
                if N.leb (store_size (<[k := v]> m)) q
                then (Ok tt, Available (<[k := v]> m) q)
                else (Throw QuotaExceededError, st)
            end.

Definition removeItem (k : string) : M unit :=
  fun st => match st with
            | Unavailable => (Throw SecurityError, st)
            | Available m q => (Ok tt, Available (delete k m) q)
            end.

(** What a reader of the store sees at key [k]. *)
Definition stored (st : storage) (k : string) : option string :=
  match st with Unavailable => None | Available m _ => m !! k end.

Definition parseM (s : string) : M json :=
  match json_parse s with Some j => ret j | None => throw SyntaxError end.

(** [schema.parse(v)]: throws a [ZodError] on failure. *)
Definition zparse {A} (r : zres A) : M A :=
  match r with ZOk a => ret a | ZErr es => throw (ZodError es) end.

(** Property read [v.k]: throws on [null], [undefined] on a primitive. *)
Definition prop_read (v : json) (k : string) : M (option json) :=
  match v with
  | JNull => throw TypeError
  | JObj l => ret (prop_lookup k l)
  | _ => ret None
  end.

Definition truthy_string (o : option string) : option string :=
  match o with Some s => if String.eqb s "" then None else Some s | None => None end.

(* ------------------------------------------------------------------ *)
(** ** [src/utils/local-storage.ts] *)

Definition USER_PROFILE : string := "squaredance-user-profile".

(** [Object.values(STORAGE_KEYS)] *)
Definition STORAGE_KEYS : list string := [USER_PROFILE].

Section LocalStorage.

Context {T : Type}.

(** [JSON.stringify] on a value of type [T]: it may throw (a cycle, a
    BigInt); an [undefined] result is stored by [setItem] as the text
    ["undefined"], which the stringifier is taken to return. *)
Variable stringifyT : T -> outcome string.

Definition lift {A} (o : outcome A) : M A :=
  match o with Ok a => ret a | Throw e => throw e end.

Definition saveToLocalStorage (key : string) (data : T) : M unit :=
  try_catch
    (json <- lift (stringifyT data) ;;
     setItem key json)
    (fun _ => ret tt).

(** [schema.safeParse] *)
Definition loadFromLocalStorage (key : string) (sch : json -> zres T) : M (option T) :=
  try_catch
    (json <- getItem key ;;
     match truthy_string json with
     | None => ret None
     | Some s =>
         data <- parseM s ;;
         match sch data with
         | ZOk t => ret (Some t)
         | ZErr _ => ret None
         end
     end)
    (fun _ => ret None).

End LocalStorage.

Definition removeFromLocalStorage (key : string) : M unit :=
  try_catch (removeItem key) (fun _ => ret tt).

Fixpoint forEach {A} (f : A -> M unit) (l : list A) : M unit :=
  match l with
  | [] => ret tt
  | x :: r => f x ;;; forEach f r
  end.

Definition clearAllLocalStorage : M unit :=
  try_catch (forEach removeItem STORAGE_KEYS) (fun _ => ret tt).

(* ------------------------------------------------------------------ *)
(** ** [src/utils/backup.ts] *)

(** The value [validateBackup] returns ([BackupDataSchema]'s output). *)
Record BackupData := mkBackupData {
  version : string;
  timestamp : num;
  user : option UserProfile
}.

(** What [exportBackup] returns: [user] is whatever [JSON.parse] made of
    the stored text, not a checked profile. *)
Record ExportedBackup := mkExportedBackup {
  ex_version : string;
  ex_timestamp : num;
  ex_user : json
}.

Definition BackupDataSchema : schema BackupData :=
  object_ (fun l =>
    zap (zap (zmap mkBackupData
      (field "version" (string_ []) l))
      (field "timestamp" (number_ []) l))
      (field "user" (nullable UserProfileSchema) l)).

(** [Date.now()] is the argument [now]. *)
Definition exportBackup (now : Z) : M ExportedBackup :=
  userJson <- getItem USER_PROFILE ;;
  user <- (match truthy_string userJson with
           | Some s => parseM s
           | None => ret JNull
           end) ;;
  ret (mkExportedBackup "1.0.0" (Dec now 0) user).

Definition validateBackup (data : json) : option BackupData :=
  match BackupDataSchema (Some data) with
  | ZOk b => Some b
  | ZErr _ => None
  end.

(** The [console] calls have no effect on the store and are left out. *)
Definition importBackup (data : json) : M bool :=
  match validateBackup data with
  | None => ret false
  | Some backup =>
      try_catch
        (match user backup with
         | Some u =>
             validUser <- zparse (UserProfileSchema (Some (profile_to_json u))) ;;
             setItem USER_PROFILE (stringify (profile_to_json validUser)) ;;;
             saved <- getItem USER_PROFILE ;;
             parsed <- parseM (match saved with Some s => s | None => "null" end) ;;
             prop_read parsed "name" ;;;
             ret true
         | None =>
             removeItem USER_PROFILE ;;;
             ret true
         end)
        (fun _ => ret false)
  end.

(* ------------------------------------------------------------------ *)
(** ** [validateName] of [ProfileModal] (the caller layer) *)

(** [\s] of a JS regular expression, and what [String.prototype.trim]
    strips, on 8-bit characters: tab, LF, VT, FF, CR, space, NBSP. *)
Definition js_space (c : ascii) : bool :=
  let n := nat_of_ascii c in
  (Nat.leb 9 n && Nat.leb n 13) || Nat.eqb n 32 || Nat.eqb n 160.

Fixpoint drop_space (l : list ascii) : list ascii :=
  match l with c :: r => if js_space c then drop_space r else l | [] => [] end.

Definition trim (s : string) : string :=
  string_of_list_ascii (rev (drop_space (rev (drop_space (list_ascii_of_string s))))).

(** [/^[a-zA-Z0-9\s_-]+$/] *)
Definition name_char (c : ascii) : bool :=
  let n := nat_of_ascii c in
  (Nat.leb 97 n && Nat.leb n 122) || (Nat.leb 65 n && Nat.leb n 90) ||
  (Nat.leb 48 n && Nat.leb n 57) || js_space c || Nat.eqb n 95 || Nat.eqb n 45.

Definition validCharPattern (s : string) : bool :=
  negb (String.eqb s "") && forallb name_char (list_ascii_of_string s).

Definition validateName (value : string) : option string :=
  if String.eqb value "" then Some "Name is required"
  else if Nat.ltb 20 (String.length value) then Some "Name must be 20 characters or less"
  else if negb (validCharPattern value)
  then Some "Only letters, numbers, spaces, dash (-), and underscore (_) allowed"
  else if negb (String.eqb value (trim value)) then Some "Name cannot start or end with spaces"
  else None.

(* ------------------------------------------------------------------ *)
(** ** The rest of [src/utils/local-storage.ts] *)

(** [isLocalStorageAvailable] *)
Definition isLocalStorageAvailable : M bool :=
  try_catch
    (setItem "__localStorage_test__" "__localStorage_test__" ;;;
     removeItem "__localStorage_test__" ;;;
     ret true)
    (fun _ => ret false).

(* ------------------------------------------------------------------ *)
(** ** The rest of [src/utils/backup.ts] *)

(** The object [exportBackup] returns, as [JSON.stringify] sees it. *)
Definition exported_to_json (b : ExportedBackup) : json :=
  JObj [("version", JStr (ex_version b)); ("timestamp", JNum (ex_timestamp b));
        ("user", ex_user b)].

(** [downloadBackup]: the text of the file it hands to the browser,
    [JSON.stringify(backup, null, 2)].  The file name comes from
    [new Date(backup.timestamp).toISOString()], which throws a
    [RangeError] outside the time values a [Date] holds (at most 8.64e15
    ms from the epoch); the Blob, object URL and link calls do not touch
    the store and are left out. *)
Definition downloadBackup (now : Z) : M string :=
  backup <- exportBackup now ;;
  let json := stringify_indent (exported_to_json backup) in
  if Z.abs (mant (ex_timestamp backup)) <=? 8640000000000000
  then ret json else throw RangeError.

(** [loadBackupFromFile]: [file] is what [file.text()] resolves to, or
    [None] when reading the file fails. *)
Definition loadBackupFromFile (file : option string) : option BackupData :=
  match file with
  | None => None
  | Some text =>
      match json_parse text with
      | Some data => validateBackup data
      | None => None
      end
  end.

(** The object [validateBackup] returns, as the callers hand it back to
    [importBackup]: the shape's keys in order, the user as zod output. *)
Definition backup_to_json (b : BackupData) : json :=
  JObj [("version", JStr (version b)); ("timestamp", JNum (timestamp b));
        ("user", match user b with Some u => profile_to_json u | None => JNull end)].

(* ------------------------------------------------------------------ *)
(** ** Callers: [WelcomeScreen], [ProfileModal], [useLocalStorage], [App] *)

(** What a restore ends in: nothing (no file chosen), a message, the user
    declining the confirmation, or a page reload. *)
Inductive restore_outcome :=
| NoFile
| ShowMessage (msg : string)
| Cancelled
| Reload.

(** [handleFileChange] of [WelcomeScreen] and of [ProfileModal] (the two
    differ only in their log and confirmation texts).  [file] is the
    chosen file ([None]: none chosen), [confirmed] the answer to
    [window.confirm]. *)
Definition handleFileChange (file : option (option string)) (confirmed : bool) : M restore_outcome :=
  match file with
  | None => ret NoFile
  | Some f =>
      try_catch
        (match loadBackupFromFile f with
         | None => ret (ShowMessage "Invalid backup file")
         | Some backup =>
             if confirmed then
               success <- importBackup (backup_to_json backup) ;;
               ret (if success then Reload else ShowMessage "Failed to restore backup")
             else ret Cancelled
         end)
        (fun _ => ret (ShowMessage "Error reading backup file"))
  end.

Definition new_stats : UserStats := mkUserStats (Dec 0 0) (Dec 0 0) (Dec 0 0) (Dec 0 0).

(** [handleSubmit] of [WelcomeScreen]: the error shown, or the profile
    handed to [onCreateProfile].  [newId] is [uuidv4()], [now] is
    [Date.now()]. *)
Definition handleSubmit (name : string) (newId : string) (now : Z) : string + UserProfile :=
  match validateName name with
  | Some validationError => inl validationError
  | None =>
      inr (mkUserProfile newId (trim name) (Dec now 0) new_stats
             (Some (mkUserPreferences (Some true) (Some true))))
  end.

(** [handleSave] of [ProfileModal]: the error shown, or the profile
    [{...user, name: name.trim()}] handed to [onUpdate]. *)
Definition handleSave (user : UserProfile) (name : string) : string + UserProfile :=
  match validateName name with
  | Some validationError => inl validationError
  | None =>
      inr (mkUserProfile (id user) (trim name) (createdAt user) (stats user) (preferences user))
  end.

Section UseLocalStorage.

Context {T : Type}.
Variable stringifyT : T -> outcome string.
(** whether a value of [T] is the JS [null] *)
Variable is_null : T -> bool.

(** First render of a component calling [useLocalStorage(key, schema,
    defaultValue)]: the [useState] initialiser, then the effect saving the
    state. *)
Definition useLocalStorage_mount (key : string) (schema : json -> zres T) (defaultValue : T) : M T :=
  loaded <- loadFromLocalStorage key schema ;;
  let state := match loaded with
               | Some t => if is_null t then defaultValue else t
               | None => defaultValue
               end in
  saveToLocalStorage stringifyT key state ;;;
  ret state.

(** The setter: the new state, then the effect saving it. *)
Definition useLocalStorage_set (key : string) (value : T) : M unit :=
  saveToLocalStorage stringifyT key value.

End UseLocalStorage.

(** [JSON.stringify] of [App]'s state, a [UserProfile | null]. *)
Definition user_json (o : option UserProfile) : json :=
  match o with Some u => profile_to_json u | None => JNull end.

Definition App_stringify (o : option UserProfile) : outcome string := Ok (stringify (user_json o)).

Definition App_is_null (o : option UserProfile) : bool :=
  match o with None => true | Some _ => false end.

(** [App]'s [useLocalStorage(STORAGE_KEYS.USER_PROFILE,
    UserProfileSchema.nullable(), null)] on first render. *)
Definition App_mount : M (option UserProfile) :=
  useLocalStorage_mount App_stringify App_is_null USER_PROFILE
    (fun j => nullable UserProfileSchema (Some j)) None.

(** [setSavedUser], as [handleCreateProfile] and [handleUpdateProfile] call it. *)
Definition App_setSavedUser (o : option UserProfile) : M unit :=
  useLocalStorage_set App_stringify USER_PROFILE o.

(** Test helper: a text written with [']' in place of the double quote. *)
Definition squote (s : string) : list ascii :=
  map (fun c => if Ascii.eqb c "'"%char then Text.c_quote else c) (list_ascii_of_string s).

(** The profile used by the repository's tests. *)
Definition mockUser : UserProfile :=
  mkUserProfile "123e4567-e89b-12d3-a456-426614174000" "TestUser" (Dec 1700000000000 0)
    (mkUserStats (Dec 5 0) (Dec 100 0) (Dec 80 0) (Dec 20 0))
    (Some (mkUserPreferences (Some true) (Some false))).

Definition profile_with_name (n : string) : json :=
  profile_to_json (mkUserProfile "123e4567-e89b-12d3-a456-426614174000" n (Dec 1 0)
    (mkUserStats (Dec 0 0) (Dec 0 0) (Dec 0 0) (Dec 0 0)) None).

Example stringify_ex :
  Text.print (JObj [("a", JNum (Dec 15 (-1)));
                    ("b", JArr [JNull; JStr "x\y"; JNum (Dec (-120) 0)])])%string
  = squote "{'a':15e-1,'b':[null,'x\\y',-120]}".
Proof. reflexivity. Qed.

Example parse_ex1 :
  json_parse (string_of_list_ascii (squote " { 'a' : [1.50, -0.5e+2, 0, true, null], 'b':'q\'r' } "))
  = Some (JObj [("a", JArr [JNum (Dec 150 (-2)); JNum (Dec (-5) 1); JNum (Dec 0 0);
                            JBool true; JNull]);
                ("b", JStr (string_of_list_ascii (squote "q'r")))])%string.
Proof. reflexivity. Qed.

Example parse_ex2 : json_parse "not valid json" = None.
Proof. reflexivity. Qed.

Example parse_ex3 : json_parse "01" = None.
Proof. reflexivity. Qed.

Example parse_ex4 : json_parse "[[[[1]]],{}]" = Some (JArr [JArr [JArr [JArr [JNum (Dec 1 0)]]]; JObj []]).
Proof. reflexivity. Qed.

Example mock_ok : UserProfileSchema (Some (profile_to_json mockUser)) = ZOk mockUser.
Proof. reflexivity. Qed.

Example mock_rt : json_parse (stringify (profile_to_json mockUser)) = Some (profile_to_json mockUser).
Proof. vm_compute. reflexivity. Qed.

Example import_ex :
  importBackup (JObj [("version", JStr "1.0.0"); ("timestamp", JNum (Dec 5 0));
                      ("user", profile_to_json mockUser)]) (Available ∅ 100000%N)
  = (Ok true, Available (<["squaredance-user-profile" := stringify (profile_to_json mockUser)]> ∅) 100000%N).
Proof. vm_compute. reflexivity. Qed.

(* ------------------------------------------------------------------ *)
(** ** [JSON.parse] reads back what [JSON.stringify] writes *)

Module TextFacts.
Import Text.

Lemma parse_chars_escape (c : ascii) (t : list ascii) :
  parse_chars (escape c ++ t) = cons_fst c (parse_chars t).
Proof. destruct c as [[] [] [] [] [] [] [] []]; reflexivity. Qed.

Lemma parse_chars_print (l t : list ascii) :
  parse_chars (flat_map escape l ++ c_quote :: t) = Some (l, t).
Proof.
  induction l as [|c l IH]; [reflexivity|].
  cbn [flat_map]. rewrite <- app_assoc, parse_chars_escape, IH. reflexivity.
Qed.

Definition val_digits (ds : list Z) : Z := fold_left (fun acc d => acc * 10 + d) ds 0.

Lemma val_digits_snoc ds d : val_digits (ds ++ [d]) = val_digits ds * 10 + d.
Proof. unfold val_digits. rewrite fold_left_app. reflexivity. Qed.

Lemma digs_spec f n :
  0 <= n < 10 ^ Z.of_nat (S f) ->
  Forall (fun d => 0 <= d <= 9) (digs f n) /\ val_digits (digs f n) = n /\
  exists d r, digs f n = d :: r /\ (r = [] \/ 1 <= d).
Proof.
  revert n. induction f as [|f IH]; intros n Hn.
  - cbn [digs]. rewrite Nat2Z.inj_succ, Z.pow_succ_r in Hn by lia. simpl Z.of_nat in Hn.
    split; [constructor; [lia | constructor]|]. split; [reflexivity|]. eauto.
  - cbn [digs]. destruct (n <? 10) eqn:Hlt.
    + apply Z.ltb_lt in Hlt.
      split; [constructor; [lia | constructor]|]. split; [reflexivity|]. eauto.
    + apply Z.ltb_ge in Hlt.
      assert (Hq : 0 <= n / 10 < 10 ^ Z.of_nat (S f)).
      { split; [apply Z.div_pos; lia|].
        apply Z.div_lt_upper_bound; [lia|].
        rewrite <- Z.pow_succ_r by lia. rewrite <- Nat2Z.inj_succ. lia. }
      destruct (IH _ Hq) as (Hall & Hval & d & r & Hds & Hhead).
      split; [apply Forall_app; split; [exact Hall|]; constructor; [|constructor];
              pose proof (Z.mod_pos_bound n 10); lia|].
      split.
      * rewrite val_digits_snoc, Hval. pose proof (Z_div_mod_eq_full n 10). lia.
      * rewrite Hds. exists d, (r ++ [n mod 10]). split; [reflexivity|].
        right. destruct Hhead as [-> | Hd]; [|exact Hd].
        rewrite Hds in Hval. cbn in Hval.
        assert (1 <= n / 10) by (apply Z.div_le_lower_bound; lia). lia.
Qed.

Lemma digits_of_spec n :
  0 <= n ->
  Forall (fun d => 0 <= d <= 9) (digits_of n) /\ val_digits (digits_of n) = n /\
  exists d r, digits_of n = d :: r /\ (r = [] \/ 1 <= d).
Proof.
  intros Hn. apply digs_spec. split; [exact Hn|].
  destruct (Z.eq_dec n 0) as [->|Hn0]; [apply Z.pow_pos_nonneg; lia|].
  destruct (Z.log2_spec n) as [_ Hup]; [lia|].
  eapply Z.lt_le_trans; [exact Hup|].
  eapply Z.le_trans; [apply (Z.pow_le_mono_l 2 10); pose proof (Z.log2_nonneg n); lia|].
  apply Z.pow_le_mono_r; [lia|].
  pose proof (Z.log2_nonneg n). rewrite !Nat2Z.inj_succ, Z2Nat.id by lia. lia.
Qed.

Ltac digit_cases d :=
  let H := fresh in
  assert (H : d = 0 \/ d = 1 \/ d = 2 \/ d = 3 \/ d = 4 \/ d = 5 \/ d = 6 \/ d = 7 \/
              d = 8 \/ d = 9) by lia;
  repeat destruct H as [H|H]; subst d.

Lemma digit_chr_facts d :
  0 <= d <= 9 ->
  is_digit (digit_chr d) = true /\ digit_val (digit_chr d) = d /\
  is_ws (digit_chr d) = false /\
  Ascii.eqb (digit_chr d) c_minus = false /\ Ascii.eqb (digit_chr d) c_plus = false /\
  Ascii.eqb (digit_chr d) c_quote = false /\ Ascii.eqb (digit_chr d) c_lbrack = false /\
  Ascii.eqb (digit_chr d) c_lbrace = false /\
  Ascii.eqb c_rbrack (digit_chr d) = false /\ Ascii.eqb c_rbrace (digit_chr d) = false /\
  (forall r, strip_prefix (lit "null") (digit_chr d :: r) = None) /\
  (forall r, strip_prefix (lit "true") (digit_chr d :: r) = None) /\
  (forall r, strip_prefix (lit "false") (digit_chr d :: r) = None).
Proof. intros Hd. digit_cases d; repeat split; reflexivity. Qed.

Lemma digit_chr_not_zero d : 1 <= d <= 9 -> Ascii.eqb (digit_chr d) (chr 48) = false.
Proof. intros Hd. digit_cases d; first [lia | reflexivity]. Qed.

Lemma digits_val_map ds acc :
  Forall (fun d => 0 <= d <= 9) ds ->
  fold_left (fun acc c => acc * 10 + digit_val c) (map digit_chr ds) acc =
  fold_left (fun acc d => acc * 10 + d) ds acc.
Proof.
  revert acc. induction ds as [|d ds IH]; intros acc Hall; [reflexivity|].
  inversion Hall as [|? ? Hd Hrest]; subst. cbn.
  destruct (digit_chr_facts d Hd) as (_ & -> & _). apply IH, Hrest.
Qed.

Lemma forallb_digits ds :
  Forall (fun d => 0 <= d <= 9) ds -> forallb is_digit (map digit_chr ds) = true.
Proof.
  induction 1 as [|d ds Hd _ IH]; [reflexivity|].
  cbn. destruct (digit_chr_facts d Hd) as (-> & _). exact IH.
Qed.

Definition no_digit (rest : list ascii) : Prop :=
  match rest with [] => True | c :: _ => is_digit c = false end.

Lemma span_digits_app ds rest :
  forallb is_digit ds = true -> no_digit rest -> span_digits (ds ++ rest) = (ds, rest).
Proof.
  intros Hds Hr. induction ds as [|c ds IH].
  - destruct rest as [|c r]; [reflexivity|]. cbn in *. rewrite Hr. reflexivity.
  - cbn in Hds. apply andb_prop in Hds as [Hc Hds].
    cbn. rewrite Hc, IH by exact Hds. reflexivity.
Qed.

Lemma print_nat_spec n :
  0 <= n ->
  forallb is_digit (print_nat n) = true /\ digits_val (print_nat n) = n /\
  exists d r, print_nat n = digit_chr d :: map digit_chr r /\ 0 <= d <= 9 /\
              (r = [] \/ 1 <= d).
Proof.
  intros Hn. destruct (digits_of_spec n Hn) as (Hall & Hval & d & r & Hds & Hhead).
  unfold print_nat. split; [apply forallb_digits, Hall|]. split.
  - unfold digits_val. rewrite digits_val_map by exact Hall. exact Hval.
  - rewrite Hds. exists d, r. split; [reflexivity|].
    rewrite Hds in Hall. inversion Hall; subst. auto.
Qed.

Lemma parse_int_part_print n rest :
  0 <= n -> no_digit rest -> parse_int_part (print_nat n ++ rest) = Some (print_nat n, rest).
Proof.
  intros Hn Hr. destruct (print_nat_spec n Hn) as (Hall & _ & d & r & Heq & Hd & Hhead).
  unfold parse_int_part. rewrite span_digits_app by assumption.
  rewrite Heq. destruct r as [|d' r]; [reflexivity|].
  destruct Hhead as [Hnil|Hd1]; [discriminate|].
  cbn [map]. rewrite digit_chr_not_zero by lia. reflexivity.
Qed.

Definition num_end (rest : list ascii) : Prop :=
  match rest with
  | [] => True
  | c :: _ => is_digit c = false /\ Ascii.eqb c c_dot = false /\
              (Ascii.eqb c c_e || Ascii.eqb c c_E) = false
  end.

Lemma num_end_no_digit rest : num_end rest -> no_digit rest.
Proof. destruct rest; cbn; tauto. Qed.

Lemma parse_frac_end rest : num_end rest -> parse_frac rest = Some ([], rest).
Proof. destruct rest as [|c r]; [reflexivity|]. cbn. intros (_ & -> & _). reflexivity. Qed.

Lemma parse_exp_end rest : num_end rest -> parse_exp rest = Some (0, rest).
Proof. destruct rest as [|c r]; [reflexivity|]. cbn. intros (_ & _ & ->). reflexivity. Qed.

Lemma print_nat_head n rest :
  0 <= n -> exists d r, print_nat n ++ rest = digit_chr d :: r /\ 0 <= d <= 9.
Proof.
  intros Hn. destruct (print_nat_spec n Hn) as (_ & _ & d & r & -> & Hd & _).
  eexists _, _. split; [reflexivity | exact Hd].
Qed.

Lemma split_sign_print m rest :
  split_sign (print_int m ++ rest) = (m <? 0, print_nat (Z.abs m) ++ rest).
Proof.
  unfold print_int. destruct (m <? 0) eqn:Hm.
  - apply Z.ltb_lt in Hm. rewrite Z.abs_neq by lia. reflexivity.
  - apply Z.ltb_ge in Hm. rewrite Z.abs_eq by lia.
    destruct (print_nat_head m rest Hm) as (d & r & Heq & Hd).
    rewrite Heq. cbn. destruct (digit_chr_facts d Hd) as (_ & _ & _ & -> & _). reflexivity.
Qed.

Lemma exp_sign_print m rest :
  exp_sign (print_int m ++ rest) = (if m <? 0 then -1 else 1, print_nat (Z.abs m) ++ rest).
Proof.
  unfold print_int. destruct (m <? 0) eqn:Hm.
  - apply Z.ltb_lt in Hm. rewrite Z.abs_neq by lia. reflexivity.
  - apply Z.ltb_ge in Hm. rewrite Z.abs_eq by lia.
    destruct (print_nat_head m rest Hm) as (d & r & Heq & Hd).
    rewrite Heq. cbn. destruct (digit_chr_facts d Hd) as (_ & _ & _ & -> & -> & _).
    reflexivity.
Qed.

Lemma signed_val m : (if m <? 0 then - digits_val (print_nat (Z.abs m))
                      else digits_val (print_nat (Z.abs m))) = m.
Proof.
  destruct (print_nat_spec (Z.abs m)) as (_ & Hv & _); [lia|]. rewrite Hv.
  destruct (m <? 0) eqn:Hm; [apply Z.ltb_lt in Hm | apply Z.ltb_ge in Hm]; lia.
Qed.

Lemma parse_number_print x rest :
  num_end rest -> parse_number (print_num x ++ rest) = Some (x, rest).
Proof.
  intros Hr. destruct x as [m e]. unfold print_num, parse_number; cbn [mant ex10].
  destruct (e =? 0) eqn:He.
  - apply Z.eqb_eq in He; subst e.
    rewrite split_sign_print, parse_int_part_print by (lia || now apply num_end_no_digit).
    rewrite parse_frac_end, parse_exp_end by exact Hr.
    rewrite app_nil_r. cbn [length Z.of_nat]. rewrite signed_val. reflexivity.
  - rewrite <- app_assoc. cbn [app].
    rewrite split_sign_print, parse_int_part_print by (lia || reflexivity).
    cbn [parse_frac]. change ((c_e =? c_dot)%char) with false. cbv iota beta.
    rewrite app_nil_r, signed_val.
    unfold parse_exp. change ((c_e =? c_e)%char || (c_e =? c_E)%char) with true.
    cbv iota beta.
    rewrite exp_sign_print, span_digits_app;
      [| apply print_nat_spec; lia | now apply num_end_no_digit].
    destruct (print_nat (Z.abs e)) as [|c r] eqn:Hp.
    + destruct (print_nat_spec (Z.abs e)) as (_ & _ & d & r & Hp' & _); [lia|].
      rewrite Hp in Hp'. discriminate.
    + rewrite <- Hp. cbn [length Z.of_nat]. rewrite Z.sub_0_r.
      destruct (print_nat_spec (Z.abs e)) as (_ & -> & _); [lia|].
      do 3 f_equal. destruct (e <? 0) eqn:Hm; [apply Z.ltb_lt in Hm | apply Z.ltb_ge in Hm]; lia.
Qed.

Fixpoint jsize (j : json) : nat :=
  match j with
  | JArr l => S (list_sum (map (fun x => S (jsize x)) l))
  | JObj l => S (list_sum (map (fun kv => S (jsize (snd kv))) l))
  | _ => 1
  end.

Definition esize (xs : list json) : nat := list_sum (map (fun x => S (jsize x)) xs).
Definition msize (ms : list (string * json)) : nat :=
  list_sum (map (fun kv => S (jsize (snd kv))) ms).

Definition pr_member (kv : string * json) : list ascii :=
  print_str (fst kv) ++ c_colon :: print (snd kv).

Definition delim (rest : list ascii) : Prop :=
  match rest with [] => True | c :: _ => c = c_comma \/ c = c_rbrack \/ c = c_rbrace end.

Lemma delim_num_end rest : delim rest -> num_end rest.
Proof. destruct rest as [|c r]; [intros; exact I|]. intros [-> | [-> | ->]]; repeat split. Qed.

Lemma print_num_head x rest :
  exists c r, print_num x ++ rest = c :: r /\
              (c = c_minus \/ exists d, 0 <= d <= 9 /\ c = digit_chr d).
Proof.
  assert (Hi : forall m t, exists c r, print_int m ++ t = c :: r /\
              (c = c_minus \/ exists d, 0 <= d <= 9 /\ c = digit_chr d)).
  { intros m t. unfold print_int. destruct (m <? 0) eqn:Hm.
    - eexists _, _. split; [reflexivity|]. left; reflexivity.
    - apply Z.ltb_ge in Hm. destruct (print_nat_head m t Hm) as (d & r & -> & Hd).
      eexists _, _. split; [reflexivity|]. right; eauto. }
  unfold print_num. destruct (ex10 x =? 0); [apply Hi|].
  rewrite <- app_assoc. apply Hi.
Qed.

Lemma parse_value_num f x rest :
  num_end rest -> parse_value (S f) (print_num x ++ rest) = Some (JNum x, rest).
Proof.
  intros Hr. destruct (print_num_head x rest) as (c & r & Heq & Hc).
  assert (H : parse_value (S f) (c :: r) =
              match parse_number (c :: r) with
              | Some (y, r') => Some (JNum y, r')
              | None => None
              end).
  { destruct Hc as [-> | (d & Hd & ->)]; [reflexivity|]. digit_cases d; reflexivity. }
  rewrite Heq, H, <- Heq, parse_number_print by exact Hr. reflexivity.
Qed.

Lemma print_head j :
  exists c r, print j = c :: r /\ is_ws c = false /\
              Ascii.eqb c_rbrack c = false /\ Ascii.eqb c_rbrace c = false.
Proof.
  destruct j as [| [] | x | s | l | l]; try (eexists _, _; split; [reflexivity | auto]).
  cbn [print]. rewrite <- (app_nil_r (print_num x)).
  destruct (print_num_head x []) as (c & r & -> & [-> | (d & Hd & ->)]);
    eexists _, _; (split; [reflexivity|]); [auto|].
  destruct (digit_chr_facts d Hd) as (_ & _ & ? & _ & _ & _ & _ & _ & ? & ? & _). auto.
Qed.

Lemma sep_concat_cons a l :
  sep_concat (a :: l) = a ++ match l with [] => [] | _ => c_comma :: sep_concat l end.
Proof. destruct l; [rewrite app_nil_r|]; reflexivity. Qed.

Lemma skipws_head l c r : l = c :: r -> is_ws c = false -> skipws l = l.
Proof. intros -> Hc. cbn. rewrite Hc. reflexivity. Qed.

Lemma print_str_app s t :
  print_str s ++ t = c_quote :: flat_map escape (list_ascii_of_string s) ++ c_quote :: t.
Proof. unfold print_str. cbn [app]. rewrite <- app_assoc. reflexivity. Qed.

Lemma elems_head xs t :
  xs <> [] -> exists c r, sep_concat (map print xs) ++ t = c :: r /\ is_ws c = false /\
              Ascii.eqb c_rbrack c = false.
Proof.
  destruct xs as [|x xs]; [congruence|]. intros _.
  cbn [map]. rewrite sep_concat_cons, <- app_assoc.
  destruct (print_head x) as (c & r & -> & Hws & Hb & _).
  eexists _, _. split; [reflexivity | auto].
Qed.

Lemma members_head ms t :
  ms <> [] -> exists r, sep_concat (map pr_member ms) ++ t = c_quote :: r.
Proof.
  destruct ms as [|m ms]; [congruence|]. intros _.
  cbn [map]. rewrite sep_concat_cons, <- app_assoc. unfold pr_member.
  rewrite <- app_assoc, print_str_app. eauto.
Qed.

Lemma delim_skipws rest : delim rest -> skipws rest = rest.
Proof. destruct rest as [|c r]; [reflexivity|]. intros [-> | [-> | ->]]; reflexivity. Qed.

Lemma parse_elems_S f l :
  parse_elems (S f) l =
  match parse_value f l with
  | None => None
  | Some (v, r) =>
      match skipws r with
      | c :: r' =>
          if Ascii.eqb c c_comma then cons_fst v (parse_elems f r')
          else if Ascii.eqb c c_rbrack then Some ([v], r')
          else None
      | [] => None
      end
  end.
Proof. reflexivity. Qed.

Lemma parse_members_S f l :
  parse_members (S f) l =
  match skipws l with
  | c :: r =>
      if Ascii.eqb c c_quote then
        match parse_chars r with
        | None => None
        | Some (k, r1) =>
            match skipws r1 with
            | c1 :: r2 =>
                if Ascii.eqb c1 c_colon then
                  match parse_value f r2 with
                  | None => None
                  | Some (v, r3) =>
                      let kv := (string_of_list_ascii k, v) in
                      match skipws r3 with
                      | c3 :: r4 =>
                          if Ascii.eqb c3 c_comma then cons_fst kv (parse_members f r4)
                          else if Ascii.eqb c3 c_rbrace then Some ([kv], r4)
                          else None
                      | [] => None
                      end
                  end
                else None
            | [] => None
            end
        end
      else None
  | [] => None
  end.
Proof. reflexivity. Qed.

Lemma skipws_punct c t :
  c = c_comma \/ c = c_rbrack \/ c = c_rbrace \/ c = c_colon \/ c = c_quote ->
  skipws (c :: t) = c :: t.
Proof. intros [-> | [-> | [-> | [-> | ->]]]]; reflexivity. Qed.

Lemma delim_comma t : delim (c_comma :: t).
Proof. left; reflexivity. Qed.
Lemma delim_rbrack t : delim (c_rbrack :: t).
Proof. right; left; reflexivity. Qed.
Lemma delim_rbrace t : delim (c_rbrace :: t).
Proof. right; right; reflexivity. Qed.

Lemma parse_print_all n :
  (forall j rest, (jsize j <= n)%nat -> delim rest ->
     parse_value n (print j ++ rest) = Some (j, rest)) /\
  (forall xs rest, xs <> [] -> (esize xs <= n)%nat -> delim rest ->
     parse_elems n (sep_concat (map print xs) ++ c_rbrack :: rest) = Some (xs, rest)) /\
  (forall ms rest, ms <> [] -> (msize ms <= n)%nat -> delim rest ->
     parse_members n (sep_concat (map pr_member ms) ++ c_rbrace :: rest) = Some (ms, rest)).
Proof.
  induction n as [|f (IHv & IHe & IHm)].
  - split; [|split].
    + intros j rest Hs. destruct j; cbn in Hs; lia.
    + intros [|x xs] rest Hne Hs; [congruence|]. cbn in Hs. lia.
    + intros [|m ms] rest Hne Hs; [congruence|]. cbn in Hs. lia.
  - split; [|split].
    + intros j rest Hs Hr. destruct j as [| [] | x | s | l | l].
      * reflexivity.
      * reflexivity.
      * reflexivity.
      * apply parse_value_num, delim_num_end, Hr.
      * cbn [print]. rewrite print_str_app. simpl.
        rewrite parse_chars_print, string_of_list_ascii_of_string. reflexivity.
      * destruct l as [|x xs]; [reflexivity|].
        assert (Hne : x :: xs <> []) by congruence.
        change (print (JArr (x :: xs))) with
          (c_lbrack :: sep_concat (map print (x :: xs)) ++ [c_rbrack]).
        rewrite <- app_comm_cons, <- app_assoc. cbn [app].
        destruct (elems_head (x :: xs) (c_rbrack :: rest) Hne) as (c & r & Heq & Hws & Hb).
        rewrite Heq. simpl. rewrite Hws. cbn [starts_with]. rewrite Hb, <- Heq, IHe; [reflexivity|exact Hne| |exact Hr].
        cbn [jsize] in Hs. unfold esize. lia.
      * destruct l as [|m ms]; [reflexivity|].
        assert (Hne : m :: ms <> []) by congruence.
        change (print (JObj (m :: ms))) with
          (c_lbrace :: sep_concat (map pr_member (m :: ms)) ++ [c_rbrace]).
        rewrite <- app_comm_cons, <- app_assoc. cbn [app].
        destruct (members_head (m :: ms) (c_rbrace :: rest) Hne) as (r & Heq).
        rewrite Heq. simpl. rewrite <- Heq, IHm; [reflexivity|exact Hne| |exact Hr].
        cbn [jsize] in Hs. unfold msize. lia.
    + intros [|x xs] rest Hne Hs Hr; [congruence|].
      unfold esize in Hs, IHe. simpl in Hs.
      destruct xs as [|y ys].
      * cbn [map sep_concat]. rewrite parse_elems_S, IHv by (apply delim_rbrack || lia).
        rewrite skipws_punct by auto. reflexivity.
      * assert (E : sep_concat (map print (x :: y :: ys)) ++ c_rbrack :: rest =
                    print x ++ c_comma :: (sep_concat (map print (y :: ys)) ++ c_rbrack :: rest))
          by (cbn [map]; rewrite sep_concat_cons, <- app_assoc; reflexivity).
        rewrite E, parse_elems_S, IHv by (apply delim_comma || lia).
        rewrite skipws_punct by auto. cbv iota beta. rewrite Ascii.eqb_refl.
        rewrite IHe; [reflexivity | congruence | | exact Hr].
        simpl in Hs |- *. lia.
    + intros [|[k v] ms] rest Hne Hs Hr; [congruence|].
      unfold msize in Hs, IHm. simpl in Hs.
      assert (Hk : forall T, pr_member (k, v) ++ T =
                   c_quote :: flat_map escape (list_ascii_of_string k) ++
                   c_quote :: c_colon :: print v ++ T).
      { intros T. unfold pr_member. cbn [fst snd]. rewrite <- app_assoc, print_str_app.
        reflexivity. }
      destruct ms as [|m' ms'].
      * cbn [map sep_concat]. rewrite Hk, parse_members_S.
        rewrite skipws_punct by auto. cbv iota beta. rewrite Ascii.eqb_refl.
        rewrite parse_chars_print, skipws_punct by auto. cbv iota beta.
        rewrite Ascii.eqb_refl, IHv by (apply delim_rbrace || lia).
        rewrite skipws_punct by auto. cbv iota beta zeta.
        rewrite string_of_list_ascii_of_string. reflexivity.
      * assert (E : sep_concat (map pr_member ((k, v) :: m' :: ms')) ++ c_rbrace :: rest =
                    pr_member (k, v) ++ c_comma ::
                      (sep_concat (map pr_member (m' :: ms')) ++ c_rbrace :: rest))
          by (cbn [map]; rewrite sep_concat_cons, <- app_assoc; reflexivity).
        rewrite E, Hk, parse_members_S.
        rewrite skipws_punct by auto. cbv iota beta. rewrite Ascii.eqb_refl.
        rewrite parse_chars_print, skipws_punct by auto. cbv iota beta.
        rewrite Ascii.eqb_refl, IHv by (apply delim_comma || lia).
        rewrite skipws_punct by auto. cbv iota beta zeta. rewrite Ascii.eqb_refl.
        rewrite IHm; [| congruence | simpl in Hs |- *; lia | exact Hr].
        rewrite string_of_list_ascii_of_string. reflexivity.
Qed.

Section JsonInd.
Variable P : json -> Prop.
Hypothesis HNull : P JNull.
Hypothesis HBool : forall b, P (JBool b).
Hypothesis HNum : forall x, P (JNum x).
Hypothesis HStr : forall s, P (JStr s).
Hypothesis HArr : forall l, Forall P l -> P (JArr l).
Hypothesis HObj : forall l, Forall (fun kv => P (snd kv)) l -> P (JObj l).

Fixpoint json_ind' (j : json) : P j :=
  match j with
  | JNull => HNull
  | JBool b => HBool b
  | JNum x => HNum x
  | JStr s => HStr s
  | JArr l =>
      HArr l ((fix go (l : list json) : Forall P l :=
                 match l with
                 | [] => @List.Forall_nil json P
                 | x :: r => @List.Forall_cons json P x r (json_ind' x) (go r)
                 end) l)
  | JObj l =>
      HObj l ((fix go (l : list (string * json)) : Forall (fun kv => P (snd kv)) l :=
                 match l with
                 | [] => @List.Forall_nil _ (fun kv => P (snd kv))
                 | kv :: r =>
                     @List.Forall_cons _ (fun kv => P (snd kv)) kv r (json_ind' (snd kv)) (go r)
                 end) l)
  end.
End JsonInd.

Lemma sep_concat_length ls :
  (list_sum (map (fun x => length x + 1) ls) <= length (sep_concat ls) + 1)%nat.
Proof.
  induction ls as [|x [|y r] IH]; [cbn; lia | cbn; lia|].
  rewrite sep_concat_cons, length_app. cbn [length] in *. cbn [map list_sum fold_right] in *. lia.
Qed.

Lemma list_sum_map_le {A} (f g : A -> nat) l :
  Forall (fun x => (f x <= g x)%nat) l -> (list_sum (map f l) <= list_sum (map g l))%nat.
Proof. induction 1; simpl in *; lia. Qed.

Lemma jsize_le_print j : (jsize j <= length (print j))%nat.
Proof.
  induction j as [| b | x | s | l IH | l IH] using json_ind'.
  - cbn; lia.
  - destruct b; cbn; lia.
  - destruct (print_head (JNum x)) as (c & r & Heq & _). rewrite Heq. cbn. lia.
  - cbn. lia.
  - cbn [jsize print length]. rewrite length_app. cbn [length].
    pose proof (sep_concat_length (map print l)) as Hl. rewrite map_map in Hl.
    assert (Hm : (list_sum (map (fun x => S (jsize x)) l) <=
                  list_sum (map (fun x => length (print x) + 1) l))%nat).
    { apply list_sum_map_le. eapply List.Forall_impl; [|exact IH]. intros a Ha; cbv beta in Ha; lia. }
    lia.
  - cbn [jsize print length]. rewrite length_app. cbn [length].
    pose proof (sep_concat_length (map pr_member l)) as Hl. rewrite map_map in Hl.
    assert (Hm : (list_sum (map (fun kv => S (jsize (snd kv))) l) <=
                  list_sum (map (fun kv => length (pr_member kv) + 1) l))%nat).
    { apply list_sum_map_le. eapply List.Forall_impl; [|exact IH]. intros [k v] Ha; cbv beta in Ha; cbn [fst snd] in *.
      unfold pr_member. rewrite length_app. cbn [length fst snd]. lia. }
    apply le_n_S. eapply Nat.le_trans; [exact Hm | exact Hl].
Qed.

End TextFacts.

(** [JSON.parse(JSON.stringify(v))] gives back [v]. *)
Lemma json_parse_stringify (j : json) : json_parse (stringify j) = Some j.
Proof.
  unfold json_parse, stringify. rewrite list_ascii_of_string_of_list_ascii.
  pose proof (TextFacts.jsize_le_print j) as Hs.
  destruct (TextFacts.parse_print_all (2 * length (Text.print j) + 2)) as (Hv & _).
  specialize (Hv j [] ltac:(lia) I). rewrite app_nil_r in Hv. rewrite Hv. reflexivity.
Qed.

(* ------------------------------------------------------------------ *)
(** ** [JSON.parse] reads back what [JSON.stringify(v, null, 2)] writes *)

Module PrettyFacts.
Import Text TextFacts.

Definition pp_member (ind : nat) (kv : string * json) : list ascii :=
  print_str (fst kv) ++ c_colon :: c_space :: pretty ind (snd kv).

Lemma skipws_app w l : forallb is_ws w = true -> skipws (w ++ l) = skipws l.
Proof.
  induction w as [|c w IH]; [reflexivity|]. cbn [forallb app skipws].
  intros H. apply andb_prop in H as [-> H]. exact (IH H).
Qed.

Lemma nl_indent_ws k : forallb is_ws (nl_indent k) = true.
Proof. unfold nl_indent. cbn [forallb]. induction k as [|k IH]; [reflexivity|exact IH]. Qed.

Lemma parse_value_ws f w l :
  forallb is_ws w = true -> parse_value (S f) (w ++ l) = parse_value (S f) l.
Proof. intros H. cbn [parse_value]. rewrite skipws_app by exact H. reflexivity. Qed.

Lemma parse_members_ws f w l :
  forallb is_ws w = true -> parse_members (S f) (w ++ l) = parse_members (S f) l.
Proof. intros H. rewrite !parse_members_S, skipws_app by exact H. reflexivity. Qed.

Lemma pretty_print_head ind j :
  exists c r, pretty ind j = c :: r /\ is_ws c = false /\
              Ascii.eqb c_rbrack c = false /\ Ascii.eqb c_rbrace c = false.
Proof.
  destruct j as [| | | | l | l]; try apply print_head;
    destruct l; eexists _, _; (split; [reflexivity | auto]).
Qed.

Lemma join_cons sep a l :
  join sep (a :: l) = a ++ match l with [] => [] | _ => sep ++ join sep l end.
Proof. destruct l; [rewrite app_nil_r|]; reflexivity. Qed.

Lemma num_end_comma t : num_end (c_comma :: t).
Proof. unfold num_end. repeat split. Qed.

Lemma num_end_nl k t : num_end (nl_indent k ++ t).
Proof. unfold nl_indent, num_end. cbn [app]. repeat split. Qed.

Lemma parse_value_lbrack f T :
  parse_value (S f) (c_lbrack :: T) =
  if starts_with c_rbrack (skipws T) then Some (JArr [], tl (skipws T))
  else match parse_elems f T with Some (vs, r') => Some (JArr vs, r') | None => None end.
Proof. reflexivity. Qed.

Lemma parse_value_lbrace f T :
  parse_value (S f) (c_lbrace :: T) =
  if starts_with c_rbrace (skipws T) then Some (JObj [], tl (skipws T))
  else match parse_members f T with Some (ms, r') => Some (JObj ms, r') | None => None end.
Proof. reflexivity. Qed.

Lemma join_pretty_head ind sep xs t :
  xs <> [] -> exists c r, join sep (map (pretty ind) xs) ++ t = c :: r /\ is_ws c = false /\
                          Ascii.eqb c_rbrack c = false.
Proof.
  intros Hne. destruct xs as [|x xs]; [congruence|]. cbn [map]. rewrite join_cons, <- app_assoc.
  destruct (pretty_print_head ind x) as (c & r & -> & H1 & H2 & _).
  eexists _, _. split; [reflexivity | auto].
Qed.

Lemma join_member_head ind sep ms t :
  ms <> [] -> exists r, join sep (map (pp_member ind) ms) ++ t = c_quote :: r.
Proof.
  intros Hne. destruct ms as [|m ms]; [congruence|]. cbn [map]. rewrite join_cons.
  unfold pp_member at 1. rewrite <- !app_assoc, print_str_app. eexists. reflexivity.
Qed.

Ltac assoc_r := repeat (first [rewrite <- app_assoc | rewrite <- app_comm_cons]).

Lemma parse_pretty_all n :
  (forall ind j w rest, (jsize j <= n)%nat -> forallb is_ws w = true -> num_end rest ->
     parse_value n (w ++ pretty ind j ++ rest) = Some (j, rest)) /\
  (forall ind ind' xs w rest, xs <> [] -> (esize xs <= n)%nat -> forallb is_ws w = true ->
     parse_elems n (w ++ join (c_comma :: nl_indent ind) (map (pretty ind) xs) ++
                    nl_indent ind' ++ c_rbrack :: rest) = Some (xs, rest)) /\
  (forall ind ind' ms w rest, ms <> [] -> (msize ms <= n)%nat -> forallb is_ws w = true ->
     parse_members n (w ++ join (c_comma :: nl_indent ind) (map (pp_member ind) ms) ++
                      nl_indent ind' ++ c_rbrace :: rest) = Some (ms, rest)).
Proof.
  induction n as [|f (IHv & IHe & IHm)].
  - split; [|split].
    + intros ind j w rest Hs. destruct j; cbn in Hs; lia.
    + intros ind ind' [|x xs] w rest Hne Hs; [congruence|]. cbn in Hs. lia.
    + intros ind ind' [|m ms] w rest Hne Hs; [congruence|]. cbn in Hs. lia.
  - assert (IHv' : forall ind j rest, (jsize j <= f)%nat -> num_end rest ->
                     parse_value f (c_space :: pretty ind j ++ rest) = Some (j, rest))
      by (intros ind j rest H1 H2; exact (IHv ind j [c_space] rest H1 eq_refl H2)).
    split; [|split].
    + intros ind j w rest Hs Hw Hr. rewrite parse_value_ws by exact Hw.
      destruct j as [| [] | x | s | l | l].
      * reflexivity.
      * reflexivity.
      * reflexivity.
      * apply parse_value_num, Hr.
      * cbn [pretty print]. rewrite print_str_app. simpl.
        rewrite parse_chars_print, string_of_list_ascii_of_string. reflexivity.
      * destruct l as [|x xs]; [reflexivity|].
        assert (Hne : x :: xs <> []) by congruence.
        change (pretty ind (JArr (x :: xs))) with
          (c_lbrack :: nl_indent (ind + 2) ++
             join (c_comma :: nl_indent (ind + 2)) (map (pretty (ind + 2)) (x :: xs)) ++
             nl_indent ind ++ [c_rbrack]).
        assoc_r. cbn [app]. rewrite parse_value_lbrack.
        rewrite skipws_app by apply nl_indent_ws.
        destruct (join_pretty_head (ind + 2) (c_comma :: nl_indent (ind + 2)) (x :: xs)
                    (nl_indent ind ++ c_rbrack :: rest) Hne) as (c & r & Heq & Hws & Hb).
        rewrite Heq. cbn [skipws]. rewrite Hws. cbn [starts_with]. rewrite Hb. rewrite <- Heq.
        rewrite IHe; [reflexivity | exact Hne | | apply nl_indent_ws].
        cbn [jsize] in Hs. unfold esize. lia.
      * destruct l as [|m ms]; [reflexivity|].
        assert (Hne : m :: ms <> []) by congruence.
        change (pretty ind (JObj (m :: ms))) with
          (c_lbrace :: nl_indent (ind + 2) ++
             join (c_comma :: nl_indent (ind + 2)) (map (pp_member (ind + 2)) (m :: ms)) ++
             nl_indent ind ++ [c_rbrace]).
        assoc_r. cbn [app]. rewrite parse_value_lbrace.
        rewrite skipws_app by apply nl_indent_ws.
        destruct (join_member_head (ind + 2) (c_comma :: nl_indent (ind + 2)) (m :: ms)
                    (nl_indent ind ++ c_rbrace :: rest) Hne) as (r & Heq).
        rewrite Heq, skipws_punct by auto. cbn [starts_with tl]. rewrite <- Heq.
        rewrite IHm; [reflexivity | exact Hne | | apply nl_indent_ws].
        cbn [jsize] in Hs. unfold msize. lia.
    + intros ind ind' [|x xs] w rest Hne Hs Hw; [congruence|].
      unfold esize in Hs, IHe. simpl in Hs.
      destruct xs as [|y ys].
      * cbn [map join]. rewrite parse_elems_S, IHv; [| lia | exact Hw | apply num_end_nl].
        rewrite skipws_app by apply nl_indent_ws. reflexivity.
      * assert (E : w ++ join (c_comma :: nl_indent ind) (map (pretty ind) (x :: y :: ys)) ++
                      nl_indent ind' ++ c_rbrack :: rest =
                    w ++ pretty ind x ++ c_comma :: (nl_indent ind ++
                      join (c_comma :: nl_indent ind) (map (pretty ind) (y :: ys)) ++
                      nl_indent ind' ++ c_rbrack :: rest))
          by (cbn [map]; rewrite join_cons; cbv iota beta; assoc_r; reflexivity).
        rewrite E, parse_elems_S, IHv; [| lia | exact Hw | apply num_end_comma].
        rewrite skipws_punct by auto. cbv iota beta. rewrite Ascii.eqb_refl.
        rewrite IHe; [reflexivity | congruence | simpl in Hs |- *; lia | apply nl_indent_ws].
    + intros ind ind' [|[k v] ms] w rest Hne Hs Hw; [congruence|].
      unfold msize in Hs, IHm. simpl in Hs.
      rewrite parse_members_ws by exact Hw.
      assert (Hk : forall T, pp_member ind (k, v) ++ T =
                   c_quote :: flat_map escape (list_ascii_of_string k) ++
                   c_quote :: c_colon :: c_space :: pretty ind v ++ T).
      { intros T. unfold pp_member. cbn [fst snd]. rewrite <- app_assoc, print_str_app.
        reflexivity. }
      destruct ms as [|m' ms'].
      * cbn [map join]. rewrite Hk, parse_members_S.
        rewrite skipws_punct by auto. cbv iota beta. rewrite Ascii.eqb_refl.
        rewrite parse_chars_print, skipws_punct by auto. cbv iota beta.
        rewrite Ascii.eqb_refl, IHv'; [| lia | apply num_end_nl].
        rewrite skipws_app by apply nl_indent_ws.
        rewrite skipws_punct by auto. cbv iota beta zeta.
        rewrite string_of_list_ascii_of_string. reflexivity.
      * assert (E : join (c_comma :: nl_indent ind) (map (pp_member ind) ((k, v) :: m' :: ms')) ++
                      nl_indent ind' ++ c_rbrace :: rest =
                    pp_member ind (k, v) ++ c_comma :: (nl_indent ind ++
                      join (c_comma :: nl_indent ind) (map (pp_member ind) (m' :: ms')) ++
                      nl_indent ind' ++ c_rbrace :: rest))
          by (cbn [map]; rewrite join_cons; cbv iota beta; assoc_r; reflexivity).
        rewrite E, Hk, parse_members_S.
        rewrite skipws_punct by auto. cbv iota beta. rewrite Ascii.eqb_refl.
        rewrite parse_chars_print, skipws_punct by auto. cbv iota beta.
        rewrite Ascii.eqb_refl, IHv'; [| lia | apply num_end_comma].
        rewrite skipws_punct by auto. cbv iota beta zeta. rewrite Ascii.eqb_refl.
        rewrite IHm; [| congruence | simpl in Hs |- *; lia | apply nl_indent_ws].
        rewrite string_of_list_ascii_of_string. reflexivity.
Qed.

Lemma join_length c s ls :
  (list_sum (map (fun x => length x + 1) ls) <= length (join (c :: s) ls) + 1)%nat.
Proof.
  induction ls as [|x [|y r] IH]; [cbn; lia | cbn; lia|].
  rewrite join_cons, !length_app. cbn [length] in *. cbn [map list_sum fold_right] in *. lia.
Qed.

Lemma jsize_le_pretty j : forall ind, (jsize j <= length (pretty ind j))%nat.
Proof.
  induction j as [| b | x | s | l IH | l IH] using json_ind'; intros ind.
  - apply jsize_le_print.
  - apply (jsize_le_print (JBool b)).
  - apply (jsize_le_print (JNum x)).
  - apply (jsize_le_print (JStr s)).
  - destruct l as [|x xs]; [cbn; lia|].
    change (pretty ind (JArr (x :: xs))) with
      (c_lbrack :: nl_indent (ind + 2) ++
         join (c_comma :: nl_indent (ind + 2)) (map (pretty (ind + 2)) (x :: xs)) ++
         nl_indent ind ++ [c_rbrack]).
    cbn [length]. rewrite !length_app.
    pose proof (join_length c_comma (nl_indent (ind + 2)) (map (pretty (ind + 2)) (x :: xs))) as Hl.
    rewrite map_map in Hl.
    assert (Hm : (list_sum (map (fun x => S (jsize x)) (x :: xs)) <=
                  list_sum (map (fun y => length (pretty (ind + 2) y) + 1) (x :: xs)))%nat).
    { apply list_sum_map_le. eapply List.Forall_impl; [|exact IH].
      intros a Ha; cbv beta in Ha. specialize (Ha (ind + 2)%nat). lia. }
    change (jsize (JArr (x :: xs))) with (S (list_sum (map (fun x => S (jsize x)) (x :: xs)))).
    change (length [c_rbrack]) with 1%nat. lia.
  - destruct l as [|m ms]; [cbn; lia|].
    change (pretty ind (JObj (m :: ms))) with
      (c_lbrace :: nl_indent (ind + 2) ++
         join (c_comma :: nl_indent (ind + 2)) (map (pp_member (ind + 2)) (m :: ms)) ++
         nl_indent ind ++ [c_rbrace]).
    cbn [length]. rewrite !length_app.
    pose proof (join_length c_comma (nl_indent (ind + 2)) (map (pp_member (ind + 2)) (m :: ms))) as Hl.
    rewrite map_map in Hl.
    assert (Hm : (list_sum (map (fun kv => S (jsize (snd kv))) (m :: ms)) <=
                  list_sum (map (fun kv => length (pp_member (ind + 2) kv) + 1) (m :: ms)))%nat).
    { apply list_sum_map_le. eapply List.Forall_impl; [|exact IH].
      intros [k v] Ha; cbv beta in Ha; cbn [fst snd] in *. specialize (Ha (ind + 2)%nat).
      unfold pp_member. rewrite length_app. cbn [length fst snd]. lia. }
    change (jsize (JObj (m :: ms))) with (S (list_sum (map (fun kv => S (jsize (snd kv))) (m :: ms)))).
    change (length [c_rbrace]) with 1%nat. lia.
Qed.

End PrettyFacts.

(** [JSON.parse(JSON.stringify(v, null, 2))] gives back [v]. *)
Lemma json_parse_stringify_indent (j : json) : json_parse (stringify_indent j) = Some j.
Proof.
  unfold json_parse, stringify_indent. rewrite list_ascii_of_string_of_list_ascii.
  pose proof (PrettyFacts.jsize_le_pretty j 0) as Hs.
  destruct (PrettyFacts.parse_pretty_all (2 * length (Text.pretty 0 j) + 2)) as (Hv & _).
  specialize (Hv 0%nat j [] [] ltac:(lia) eq_refl I). cbn [app] in Hv.
  rewrite app_nil_r in Hv. rewrite Hv. reflexivity.
Qed.

(* ------------------------------------------------------------------ *)
(** ** The schemas accept their own output *)

Module SchemaFacts.

Lemma zap_ok {A B} (f : zres (A -> B)) (x : zres A) b :
  zap f x = ZOk b -> exists g a, f = ZOk g /\ x = ZOk a /\ b = g a.
Proof. destruct f, x; cbn; intros H; inversion H; eauto. Qed.

Lemma zmap_ok {A B} (g : A -> B) (x : zres A) b :
  zmap g x = ZOk b -> exists a, x = ZOk a /\ b = g a.
Proof. destruct x; cbn; intros H; inversion H; eauto. Qed.

Lemma field_ok {A} k (s : schema A) l a : field k s l = ZOk a -> s (prop_lookup k l) = ZOk a.
Proof. unfold field. destruct (s (prop_lookup k l)); intros H; inversion H; reflexivity. Qed.

Lemma checks_ok {A} cs (x a : A) : checks cs x = ZOk a -> a = x.
Proof.
  unfold checks. destruct (flat_map _ cs); intros H; inversion H; reflexivity.
Qed.

Lemma string_ok cs v s : string_ cs v = ZOk s -> string_ cs (Some (JStr s)) = ZOk s.
Proof.
  destruct v as [[]|]; cbn; intros H; try discriminate.
  pose proof (checks_ok _ _ _ H) as ->. exact H.
Qed.

Lemma number_ok cs v x : number_ cs v = ZOk x -> number_ cs (Some (JNum x)) = ZOk x.
Proof.
  destruct v as [[]|]; cbn; intros H; try discriminate.
  pose proof (checks_ok _ _ _ H) as ->. exact H.
Qed.

Lemma optional_bool_ok v o :
  optional boolean_ v = ZOk o -> optional boolean_ (option_map JBool o) = ZOk o.
Proof. destruct v as [[]|]; cbn; intros H; inversion H; reflexivity. Qed.

Lemma optional_ok {A} (s : schema A) (enc : A -> json) v o :
  (forall v a, s v = ZOk a -> s (Some (enc a)) = ZOk a) ->
  optional s v = ZOk o -> optional s (option_map enc o) = ZOk o.
Proof.
  intros Hs. destruct v as [j|]; cbn; intros H; [|inversion H; reflexivity].
  apply zmap_ok in H as (a & Ha & ->). cbn. rewrite (Hs _ _ Ha). reflexivity.
Qed.

Ltac invert_zap H :=
  repeat match type of H with
  | zap _ _ = ZOk _ =>
      let g := fresh "g" in let a := fresh "a" in
      let Hf := fresh "Hf" in let Hx := fresh "Hx" in
      apply zap_ok in H as (g & a & Hf & Hx & H); subst;
      rename Hf into H
  | zmap _ _ = ZOk _ =>
      let a := fresh "a" in let Hx := fresh "Hx" in
      apply zmap_ok in H as (a & Hx & H); subst
  end.

Lemma UserStatsSchema_output v s :
  UserStatsSchema v = ZOk s -> UserStatsSchema (Some (stats_to_json s)) = ZOk s.
Proof.
  destruct v as [[]|]; cbn [UserStatsSchema object_]; intros H; try discriminate.
  invert_zap H.
  apply field_ok, number_ok in Hx, Hx0, Hx1, Hx2.
  unfold stats_to_json, field. cbn [prop_lookup String.eqb Ascii.eqb Bool.eqb andb].
  unfold count_ in *. cbn [totalSessions totalCalls successfulSequences failedSequences]. rewrite Hx, Hx0, Hx1, Hx2. reflexivity.
Qed.

Lemma prefs_lookup p l :
  prefs_to_json p = JObj l ->
  prop_lookup "autoPlayAnimations" l = option_map JBool (autoPlayAnimations p) /\
  prop_lookup "showFlowHints" l = option_map JBool (showFlowHints p).
Proof.
  intros [= <-].
  destruct p as [[a|] [b|]]; split; reflexivity.
Qed.

Lemma UserPreferencesSchema_output v p :
  UserPreferencesSchema v = ZOk p -> UserPreferencesSchema (Some (prefs_to_json p)) = ZOk p.
Proof.
  destruct v as [[]|]; cbn [UserPreferencesSchema object_]; intros H; try discriminate.
  invert_zap H.
  apply field_ok, optional_bool_ok in Hx, Hx0.
  destruct (prefs_lookup (mkUserPreferences a0 a) _ eq_refl) as [E1 E2].
  unfold prefs_to_json at 1. cbn [object_]. unfold field.
  rewrite E1, E2. cbn [autoPlayAnimations showFlowHints]. rewrite Hx, Hx0. reflexivity.
Qed.

Lemma profile_lookup u l :
  profile_to_json u = JObj l ->
  prop_lookup "id" l = Some (JStr (id u)) /\
  prop_lookup "name" l = Some (JStr (name u)) /\
  prop_lookup "createdAt" l = Some (JNum (createdAt u)) /\
  prop_lookup "stats" l = Some (stats_to_json (stats u)) /\
  prop_lookup "preferences" l = option_map prefs_to_json (preferences u).
Proof.
  intros [= <-]. destruct (preferences u); repeat split; reflexivity.
Qed.

Lemma UserProfileSchema_output v u :
  UserProfileSchema v = ZOk u -> UserProfileSchema (Some (profile_to_json u)) = ZOk u.
Proof.
  destruct v as [[]|]; cbn [UserProfileSchema object_]; intros H; try discriminate.
  invert_zap H.
  apply field_ok in Hx, Hx0, Hx1, Hx2, Hx3.
  apply string_ok in Hx3, Hx2. apply number_ok in Hx1.
  apply UserStatsSchema_output in Hx0.
  apply (optional_ok _ prefs_to_json) in Hx; [|exact UserPreferencesSchema_output].
  set (u := mkUserProfile a3 a2 a1 a0 a).
  destruct (profile_lookup u _ eq_refl) as (E1 & E2 & E3 & E4 & E5).
  unfold profile_to_json at 1. cbn [object_]. unfold field.
  rewrite E1, E2, E3, E4, E5. subst u. cbn [id name createdAt stats preferences].
  rewrite Hx3, Hx2, Hx1, Hx0, Hx. reflexivity.
Qed.

Lemma nullable_some {A} (s : schema A) v a :
  nullable s v = ZOk (Some a) -> s v = ZOk a.
Proof.
  unfold nullable. destruct v as [[]|]; try discriminate;
  intros H; apply zmap_ok in H as (a' & -> & [= ->]); reflexivity.
Qed.

(** The user of an accepted envelope passed [UserProfileSchema]. *)
Lemma validateBackup_user data b u :
  validateBackup data = Some b -> user b = Some u -> exists v, UserProfileSchema v = ZOk u.
Proof.
  unfold validateBackup. destruct (BackupDataSchema (Some data)) as [b'|] eqn:E;
    intros H; inversion H; subst; clear H.
  destruct data; cbn [BackupDataSchema object_] in E; try discriminate.
  invert_zap E. cbn [user]. intros ->.
  apply field_ok, nullable_some in Hx. eauto.
Qed.

Lemma validateBackup_user_output data b u :
  validateBackup data = Some b -> user b = Some u ->
  UserProfileSchema (Some (profile_to_json u)) = ZOk u.
Proof.
  intros H1 H2. destruct (validateBackup_user _ _ _ H1 H2) as (v & Hv).
  exact (UserProfileSchema_output _ _ Hv).
Qed.

End SchemaFacts.

Lemma stringify_obj_nonempty l : String.eqb (stringify (JObj l)) "" = false.
Proof. reflexivity. Qed.

Lemma stored_insert_ne m q k k' v :
  k <> k' -> stored (Available (<[k := v]> m) q) k' = stored (Available m q) k'.
Proof. intros Hne. cbn. apply lookup_insert_ne. exact Hne. Qed.

Lemma checks_pass {A} (cs : list (A -> bool * issue_code)) x :
  Forall (fun c => fst (c x) = true) cs -> checks cs x = ZOk x.
Proof.
  intros H. unfold checks.
  replace (flat_map _ cs) with (@nil issue); [reflexivity|].
  induction H as [|c cs Hc _ IH]; [reflexivity|].
  cbn. destruct (c x) as [[] ?]; cbn in Hc; [exact IH | discriminate].
Qed.

Lemma checks_all {A} (cs : list (A -> bool * issue_code)) x a :
  checks cs x = ZOk a -> Forall (fun c => fst (c x) = true) cs.
Proof.
  unfold checks. induction cs as [|c cs IH]; intros H; [constructor|].
  cbn in H. destruct (c x) as [[] k] eqn:E.
  - constructor; [rewrite E; reflexivity | exact (IH H)].
  - discriminate.
Qed.

(* ------------------------------------------------------------------ *)
(** ** Claims *)

(** C1: on a value that fails envelope validation (e.g. [{version:"1.0.0"}],
    timestamp and user missing) [importBackup] returns false and leaves the
    store exactly as it was. *)
Theorem importBackup_invalid_noop (data : json) (st : storage) :
  validateBackup data = None -> importBackup data st = (Ok false, st).
Proof. intros H. unfold importBackup. rewrite H. reflexivity. Qed.

Lemma importBackup_invalid_noop_witness :
  validateBackup (JObj [("version", JStr "1.0.0")]) = None /\
  importBackup (JObj [("version", JStr "1.0.0")]) (Available {["squaredance-user-profile" := "x"]} 10%N)
  = (Ok false, Available {["squaredance-user-profile" := "x"]} 10%N).
Proof.
  split; [reflexivity|].
  apply importBackup_invalid_noop. reflexivity.
Defined.

(** C2, counterexample: a valid envelope whose user does not fit in the
    store's quota (here an empty store with quota 0) makes [setItem]
    throw [QuotaExceededError]; [importBackup] catches it and returns
    false with the store unchanged.  Likewise a [null]-user envelope on an
    unavailable store returns false. *)
Lemma importBackup_store_failure_cex :
  let env u := JObj [("version", JStr "1.0.0"); ("timestamp", JNum (Dec 5 0)); ("user", u)] in
  validateBackup (env (profile_to_json mockUser)) <> None /\
  importBackup (env (profile_to_json mockUser)) (Available ∅ 0%N) = (Ok false, Available ∅ 0%N) /\
  validateBackup (env JNull) <> None /\
  importBackup (env JNull) Unavailable = (Ok false, Unavailable).
Proof. vm_compute. repeat split; discriminate. Qed.

(** C2 (amended): for an envelope that passes validation, [importBackup]
    performs exactly one store write: with a user [u] it overwrites the
    profile key with [JSON.stringify] of [u] as a whole (no merge with the
    previous value), with a [null] user it removes the key.  It returns
    true when that write succeeds and false when the store throws (quota
    exceeded, storage unavailable), and in that case the store is unchanged.
    After a successful write the profile key holds exactly the new text (or
    nothing) and every other key is untouched. *)
Theorem importBackup_replaces (data : json) (b : BackupData) (st : storage) :
  validateBackup data = Some b ->
  let w := match user b with
           | Some u => setItem USER_PROFILE (stringify (profile_to_json u)) st
           | None => removeItem USER_PROFILE st
           end in
  importBackup data st = (match fst w with Ok _ => Ok true | Throw _ => Ok false end, snd w) /\
  (fst w = Ok tt ->
     stored (snd w) USER_PROFILE =
       match user b with Some u => Some (stringify (profile_to_json u)) | None => None end /\
     forall k, k <> USER_PROFILE -> stored (snd w) k = stored st k) /\
  (forall e, fst w = Throw e -> snd w = st).
Proof.
  intros Hv w. unfold importBackup. rewrite Hv.
  destruct (user b) as [u|] eqn:Hu; subst w.
  - pose proof (SchemaFacts.validateBackup_user_output _ _ _ Hv Hu) as Hs.
    unfold try_catch, bind. rewrite Hs. cbn [zparse ret].
    destruct st as [|m q]; [cbn; repeat split; congruence|].
    unfold setItem.
    destruct (N.leb (store_size (<[USER_PROFILE := stringify (profile_to_json u)]> m)) q).
    + unfold getItem. cbn beta iota. rewrite lookup_insert_eq. unfold parseM.
      rewrite json_parse_stringify. cbn. split; [reflexivity|]. split; [|congruence].
      intros _. split; [apply lookup_insert_eq|].
      intros k Hk. apply lookup_insert_ne. congruence.
    + cbn. repeat split; congruence.
  - unfold try_catch, bind. destruct st as [|m q]; cbn; [repeat split; congruence|].
    split; [reflexivity|]. split; [|congruence].
    intros _. split; [apply lookup_delete_eq|].
    intros k Hk. apply lookup_delete_ne. congruence.
Qed.

Lemma importBackup_replaces_witness :
  let data := JObj [("version", JStr "1.0.0"); ("timestamp", JNum (Dec 5 0));
                    ("user", profile_to_json mockUser)] in
  validateBackup data = Some (mkBackupData "1.0.0" (Dec 5 0) (Some mockUser)) /\
  importBackup data (Available ∅ 100000%N) =
    (Ok true, Available (<[USER_PROFILE := stringify (profile_to_json mockUser)]> ∅) 100000%N).
Proof.
  intros data. split; [vm_compute; reflexivity|].
  destruct (importBackup_replaces data (mkBackupData "1.0.0" (Dec 5 0) (Some mockUser))
              (Available ∅ 100000%N) ltac:(vm_compute; reflexivity)) as [-> _].
  vm_compute. reflexivity.
Defined.

(** C3, counterexample: [UserProfileSchema] accepts the name ["Bob!"];
    the schema has no character-set rule. *)
Lemma schema_accepts_bob_cex :
  exists u, UserProfileSchema (Some (profile_with_name "Bob!")) = ZOk u /\ name u = "Bob!"%string.
Proof. eexists. split; [vm_compute; reflexivity | reflexivity]. Qed.

(** C3 (amended): the name rule of [UserProfileSchema] is a length bound
    only: an object whose [id], [createdAt], [stats] and [preferences]
    pass their schemas and whose [name] is a string is accepted iff that
    name has 1 to 20 characters (in general, and on the test profile), so
    ["Bob Smith-99_"] and ["Bob!"] are both accepted and 21
    ['a'] are rejected with one [too_big] issue on [name].  Both the
    character-set check and the leading/trailing-space check are in the
    caller's [validateName], which accepts ["Bob Smith-99_"] and rejects
    ["Bob!"] (characters), 21 ['a'] (length) and [" Bob"] (trim). *)
Theorem name_rule_split :
  (forall (l : list (string * json)) (i : string) (c : num) (s : UserStats)
          (p : option UserPreferences) (n : string),
     string_ [uuid] (prop_lookup "id" l) = ZOk i ->
     number_ [int_; positive_] (prop_lookup "createdAt" l) = ZOk c ->
     UserStatsSchema (prop_lookup "stats" l) = ZOk s ->
     optional UserPreferencesSchema (prop_lookup "preferences" l) = ZOk p ->
     prop_lookup "name" l = Some (JStr n) ->
     ((exists u, UserProfileSchema (Some (JObj l)) = ZOk u) <->
      (1 <= String.length n <= 20)%nat)) /\
  (forall n : string,
     (exists u, UserProfileSchema (Some (profile_with_name n)) = ZOk u) <->
     (1 <= String.length n <= 20)%nat) /\
  UserProfileSchema (Some (profile_with_name "aaaaaaaaaaaaaaaaaaaaa"))
    = ZErr [Issue ["name"] too_big] /\
  validateName "Bob Smith-99_" = None /\
  validateName "Bob!" = Some "Only letters, numbers, spaces, dash (-), and underscore (_) allowed"%string /\
  validateName "aaaaaaaaaaaaaaaaaaaaa" = Some "Name must be 20 characters or less"%string /\
  validateName " Bob" = Some "Name cannot start or end with spaces"%string.
Proof.
  split.
  { intros l i c s p n Hi Hc Hs Hp Hn. cbn [UserProfileSchema object_]. unfold field.
    rewrite Hi, Hc, Hs, Hp, Hn. cbn [string_]. split.
    - intros [u H]. destruct (checks [min_len 1; max_len 20] n) as [a|es] eqn:E;
        [|cbn in H; discriminate].
      apply checks_all in E.
      inversion E as [|? ? H1 H2]; subst. inversion H2 as [|? ? H3 _]; subst.
      unfold min_len, max_len in H1, H3. cbn [fst] in H1, H3. apply Nat.leb_le in H1, H3. lia.
    - intros Hlen.
      rewrite (checks_pass _ n)
        by (repeat constructor; unfold min_len, max_len; cbn [fst]; apply Nat.leb_le; lia).
      eexists. reflexivity. }
  split; [|vm_compute; repeat split; reflexivity].
  intros n. unfold profile_with_name.
  set (u := mkUserProfile _ n _ _ None).
  destruct (SchemaFacts.profile_lookup u _ eq_refl) as (E1 & E2 & E3 & E4 & E5).
  split.
  - intros [u' H]. unfold profile_to_json at 1 in H. cbn [UserProfileSchema object_] in H.
    SchemaFacts.invert_zap H.
    apply SchemaFacts.field_ok in Hx2. rewrite E2 in Hx2.
    apply checks_all in Hx2.
    inversion Hx2 as [|? ? H1 H2]; subst. inversion H2 as [|? ? H3 _]; subst.
    unfold min_len, max_len in H1, H3. cbn [fst] in H1, H3. apply Nat.leb_le in H1, H3.
    unfold u in H1, H3. cbn [name] in H1, H3. lia.
  - intros Hn. eexists. unfold profile_to_json at 1. cbn [UserProfileSchema object_].
    unfold field. rewrite E1, E2, E3, E4, E5.
    replace (string_ [min_len 1; max_len 20] (Some (JStr (name u)))) with (ZOk n).
    + reflexivity.
    + symmetry. apply checks_pass.
      repeat constructor; unfold min_len, max_len; cbn [fst]; apply Nat.leb_le; lia.
Qed.

(** C4: for every valid profile [P] (a value [UserProfileSchema] returned),
    [JSON.parse(JSON.stringify(P))] gives back the object [P] and the
    schema accepts it, returning [P].  Through the storage helpers: once
    [saveToLocalStorage] has written [P] under a key (the write fits the
    quota), [loadFromLocalStorage] with [UserProfileSchema] returns [P]. *)
Theorem profile_roundtrip (v : option json) (P : UserProfile) :
  UserProfileSchema v = ZOk P ->
  json_parse (stringify (profile_to_json P)) = Some (profile_to_json P) /\
  UserProfileSchema (Some (profile_to_json P)) = ZOk P /\
  forall key m q,
    fst (setItem key (stringify (profile_to_json P)) (Available m q)) = Ok tt ->
    fst (loadFromLocalStorage key (fun j => UserProfileSchema (Some j))
           (snd (saveToLocalStorage (fun p => Ok (stringify (profile_to_json p)))
                   key P (Available m q))))
    = Ok (Some P).
Proof.
  intros H. pose proof (SchemaFacts.UserProfileSchema_output _ _ H) as Hs.
  split; [apply json_parse_stringify|]. split; [exact Hs|].
  intros key m q Hw. unfold saveToLocalStorage, try_catch, bind, lift, ret.
  unfold setItem in *.
  destruct (N.leb (store_size (<[key := stringify (profile_to_json P)]> m)) q); [|discriminate].
  unfold loadFromLocalStorage, getItem, try_catch, bind.
  cbn [fst snd]. rewrite lookup_insert_eq. unfold truthy_string.
  unfold profile_to_json at 1. rewrite stringify_obj_nonempty.
  fold (profile_to_json P). unfold parseM. rewrite json_parse_stringify.
  cbn beta iota delta [ret]. rewrite Hs. reflexivity.
Qed.

Lemma profile_roundtrip_witness :
  UserProfileSchema (Some (profile_to_json mockUser)) = ZOk mockUser /\
  json_parse (stringify (profile_to_json mockUser)) = Some (profile_to_json mockUser).
Proof.
  split; [reflexivity|].
  apply (profile_roundtrip (Some (profile_to_json mockUser)) mockUser). reflexivity.
Defined.

(** C9: when [validateBackup] accepts an envelope with a non-null user
    [u], the second check [UserProfileSchema.parse(backup.user)] in
    [importBackup] succeeds and returns [u] itself: that branch never
    makes [importBackup] return false. *)
Theorem revalidation_succeeds (data : json) (b : BackupData) (u : UserProfile) :
  validateBackup data = Some b -> user b = Some u ->
  UserProfileSchema (Some (profile_to_json u)) = ZOk u /\
  forall st, zparse (UserProfileSchema (Some (profile_to_json u))) st = (Ok u, st).
Proof.
  intros H1 H2. pose proof (SchemaFacts.validateBackup_user_output _ _ _ H1 H2) as Hs.
  split; [exact Hs|]. intros st. rewrite Hs. reflexivity.
Qed.

Lemma revalidation_succeeds_witness :
  let data := JObj [("version", JStr "2.0"); ("timestamp", JNum (Dec (-3) 0));
                    ("user", profile_to_json mockUser); ("extra", JBool true)] in
  validateBackup data = Some (mkBackupData "2.0" (Dec (-3) 0) (Some mockUser)) /\
  UserProfileSchema (Some (profile_to_json mockUser)) = ZOk mockUser.
Proof.
  intros data. split; [vm_compute; reflexivity|].
  apply (revalidation_succeeds data (mkBackupData "2.0" (Dec (-3) 0) (Some mockUser)) mockUser);
    [vm_compute; reflexivity | reflexivity].
Defined.

(** C5, counterexample: when the stored profile text is not JSON,
    [exportBackup] throws the [SyntaxError] of [JSON.parse]; it has no
    [try]/[catch].  It also throws when the store is unavailable. *)
Lemma exportBackup_throws_cex :
  let st := Available {[USER_PROFILE := "not valid json"]} 100%N in
  exportBackup 1700000000000 st = (Throw SyntaxError, st) /\
  exportBackup 1700000000000 Unavailable = (Throw SecurityError, Unavailable).
Proof. split; vm_compute; reflexivity. Qed.

(** C5 (amended): [exportBackup] never validates the stored profile
    against the schema and never changes the store.  On an available store
    whose profile key is absent, empty, or holds any JSON text (whatever
    its shape), it returns [{version: "1.0.0", timestamp: now, user}] with
    [user] the parsed JSON, or [null] when the key is absent or empty; in
    particular an empty store gives [user: null].  It throws only when the
    stored text is not JSON or the store is unavailable. *)
Theorem exportBackup_spec (now : Z) (st : storage) :
  exportBackup now st =
    match st with
    | Unavailable => (Throw SecurityError, st)
    | Available m _ =>
        match truthy_string (m !! USER_PROFILE) with
        | None => (Ok (mkExportedBackup "1.0.0" (Dec now 0) JNull), st)
        | Some s =>
            match json_parse s with
            | Some j => (Ok (mkExportedBackup "1.0.0" (Dec now 0) j), st)
            | None => (Throw SyntaxError, st)
            end
        end
    end /\
  forall q, exportBackup now (Available ∅ q) =
            (Ok (mkExportedBackup "1.0.0" (Dec now 0) JNull), Available ∅ q).
Proof.
  split; [|reflexivity].
  destruct st as [|m q]; [reflexivity|].
  unfold exportBackup, bind, getItem. cbn beta iota.
  destruct (truthy_string (m !! USER_PROFILE)) as [s|]; [|reflexivity].
  unfold parseM. destruct (json_parse s); reflexivity.
Qed.

(** C6: [loadFromLocalStorage] never throws and never changes the store;
    it returns a value exactly when the key holds a non-empty text that
    [JSON.parse] reads and the schema accepts, and [null] otherwise (key
    never set, store unavailable, text not JSON, schema failure). *)
Theorem loadFromLocalStorage_spec {T} (key : string) (sch : json -> zres T) (st : storage) :
  loadFromLocalStorage key sch st =
    (Ok (match stored st key with
         | Some s =>
             if String.eqb s "" then None
             else match json_parse s with
                  | Some j => match sch j with ZOk t => Some t | ZErr _ => None end
                  | None => None
                  end
         | None => None
         end), st).
Proof.
  destruct st as [|m q]; [reflexivity|].
  unfold loadFromLocalStorage, try_catch, bind, getItem. cbn [stored].
  unfold truthy_string. destruct (m !! key) as [s|]; [|reflexivity].
  destruct (String.eqb s ""); [reflexivity|].
  unfold parseM. destruct (json_parse s) as [j|]; [|reflexivity].
  unfold ret at 1. destruct (sch j); reflexivity.
Qed.

(** C7: [saveToLocalStorage] always returns normally with [undefined],
    whatever the key, the value and the store: a failed serialisation or
    a failed write is caught, and then the store is left as it was. *)
Theorem saveToLocalStorage_total {T} (stringifyT : T -> outcome string)
    (key : string) (data : T) (st : storage) :
  fst (saveToLocalStorage stringifyT key data st) = Ok tt /\
  snd (saveToLocalStorage stringifyT key data st) =
    match stringifyT data with
    | Ok s => match setItem key s st with (Ok _, st') => st' | (Throw _, _) => st end
    | Throw _ => st
    end.
Proof.
  unfold saveToLocalStorage, try_catch, bind, lift.
  destruct (stringifyT data) as [s|e]; [|split; reflexivity].
  unfold ret. cbn beta iota.
  destruct st as [|m q]; [split; reflexivity|]. unfold setItem.
  destruct (N.leb _ q); split; reflexivity.
Qed.

(** C8: [clearAllLocalStorage] returns normally and afterwards the keys
    of [STORAGE_KEYS] (the profile key) are absent while every other key
    keeps its value. *)
Theorem clearAllLocalStorage_frame (st : storage) :
  fst (clearAllLocalStorage st) = Ok tt /\
  forall k, stored (snd (clearAllLocalStorage st)) k =
            if existsb (String.eqb k) STORAGE_KEYS then None else stored st k.
Proof.
  split; [destruct st; reflexivity|].
  intros k. destruct st as [|m q]; [destruct (existsb _ _); reflexivity|].
  cbn [clearAllLocalStorage try_catch forEach STORAGE_KEYS bind removeItem ret fst snd stored existsb].
  rewrite orb_false_r. destruct (String.eqb_spec k USER_PROFILE) as [->|Hne].
  - apply lookup_delete_eq.
  - apply lookup_delete_ne. congruence.
Qed.

(** C10: [validateBackup] puts no constraint on [version] (any string) or
    [timestamp] (any number: zero, negative, fractional); the envelope is
    accepted exactly when its [user] is [null] or passes
    [UserProfileSchema]. *)
Theorem validateBackup_any_version_timestamp (v : string) (t : num) (uj : json) :
  validateBackup (JObj [("version", JStr v); ("timestamp", JNum t); ("user", uj)]) =
    match nullable UserProfileSchema (Some uj) with
    | ZOk u => Some (mkBackupData v t u)
    | ZErr _ => None
    end /\
  validateBackup (JObj [("version", JStr v); ("timestamp", JNum t); ("user", JNull)]) =
    Some (mkBackupData v t None).
Proof.
  split; [|reflexivity].
  unfold validateBackup, BackupDataSchema, object_, field. cbn [prop_lookup String.eqb Ascii.eqb Bool.eqb andb].
  unfold string_, number_, checks. cbn [flat_map].
  destruct (nullable UserProfileSchema (Some uj)); reflexivity.
Qed.

(* ------------------------------------------------------------------ *)
(** ** Facts about the rest of the code *)

Module ModelFacts.
Import SchemaFacts.

Lemma number_inv cs v a : number_ cs v = ZOk a -> Forall (fun c => fst (c a) = true) cs.
Proof.
  destruct v as [[]|]; cbn; intros H; try discriminate.
  pose proof (checks_ok _ _ _ H) as ->. exact (checks_all _ _ _ H).
Qed.

Lemma string_inv cs v a : string_ cs v = ZOk a -> Forall (fun c => fst (c a) = true) cs.
Proof.
  destruct v as [[]|]; cbn; intros H; try discriminate.
  pose proof (checks_ok _ _ _ H) as ->. exact (checks_all _ _ _ H).
Qed.

Definition count_ok (x : num) : Prop := num_is_int x = true /\ 0 <= mant x.

Lemma count_inv v a : count_ v = ZOk a -> count_ok a.
Proof.
  unfold count_. intros H. apply number_inv in H.
  inversion H as [|? ? H1 H2]; subst. inversion H2 as [|? ? H3 _]; subst.
  unfold int_, min0 in *. cbn [fst] in *. split; [exact H1 | apply Z.leb_le, H3].
Qed.

Lemma count_accepts x : count_ok x -> number_ [int_; min0] (Some (JNum x)) = ZOk x.
Proof.
  intros [H1 H2]. apply checks_pass. unfold int_, min0.
  repeat constructor; cbn [fst]; [exact H1 | apply Z.leb_le, H2].
Qed.

Lemma UserStatsSchema_inv v s :
  UserStatsSchema v = ZOk s ->
  Forall count_ok [totalSessions s; totalCalls s; successfulSequences s; failedSequences s].
Proof.
  destruct v as [[]|]; cbn [UserStatsSchema object_]; intros H; try discriminate.
  invert_zap H. apply field_ok, count_inv in Hx, Hx0, Hx1, Hx2.
  cbn [totalSessions totalCalls successfulSequences failedSequences].
  repeat (constructor; [assumption|]). constructor.
Qed.

Lemma UserStatsSchema_accepts s :
  Forall count_ok [totalSessions s; totalCalls s; successfulSequences s; failedSequences s] ->
  UserStatsSchema (Some (stats_to_json s)) = ZOk s.
Proof.
  intros H. inversion H as [|? ? H1 H']; subst. inversion H' as [|? ? H2 H'']; subst.
  inversion H'' as [|? ? H3 H''']; subst. inversion H''' as [|? ? H4 _]; subst.
  destruct s as [a b c d]. cbn [totalSessions totalCalls successfulSequences failedSequences] in *.
  unfold stats_to_json. cbn [UserStatsSchema object_]. unfold field.
  cbn [prop_lookup String.eqb Ascii.eqb Bool.eqb andb].
  rewrite !count_accepts by assumption. reflexivity.
Qed.

Lemma UserPreferencesSchema_accepts p : UserPreferencesSchema (Some (prefs_to_json p)) = ZOk p.
Proof. destruct p as [[a|] [b|]]; reflexivity. Qed.

Definition profile_checks (u : UserProfile) : Prop :=
  fst (uuid (id u)) = true /\
  (1 <= String.length (name u) <= 20)%nat /\
  num_is_int (createdAt u) = true /\ 0 < mant (createdAt u) /\
  Forall count_ok [totalSessions (stats u); totalCalls (stats u);
                   successfulSequences (stats u); failedSequences (stats u)].

Lemma UserProfileSchema_inv v u : UserProfileSchema v = ZOk u -> profile_checks u.
Proof.
  destruct v as [[]|]; cbn [UserProfileSchema object_]; intros H; try discriminate.
  invert_zap H. apply field_ok in Hx0, Hx1, Hx2, Hx3.
  apply string_inv in Hx3, Hx2. apply number_inv in Hx1. apply UserStatsSchema_inv in Hx0.
  unfold profile_checks. cbn [id name createdAt stats].
  inversion Hx3 as [|? ? Hu _]; subst.
  inversion Hx2 as [|? ? Hmin Hx2']; subst. inversion Hx2' as [|? ? Hmax _]; subst.
  inversion Hx1 as [|? ? Hint Hx1']; subst. inversion Hx1' as [|? ? Hpos _]; subst.
  unfold min_len, max_len, int_, positive_ in *. cbn [fst] in *.
  apply Nat.leb_le in Hmin, Hmax. apply Z.ltb_lt in Hpos.
  repeat split; auto.
Qed.

Lemma UserProfileSchema_accepts u : profile_checks u -> UserProfileSchema (Some (profile_to_json u)) = ZOk u.
Proof.
  intros (Hu & Hn & Hi & Hp & Hs).
  destruct (profile_lookup u _ eq_refl) as (E1 & E2 & E3 & E4 & E5).
  unfold profile_to_json at 1. cbn [UserProfileSchema object_]. unfold field.
  rewrite E1, E2, E3, E4, E5.
  replace (string_ [uuid] (Some (JStr (id u)))) with (ZOk (id u))
    by (symmetry; apply checks_pass; repeat constructor; exact Hu).
  replace (string_ [min_len 1; max_len 20] (Some (JStr (name u)))) with (ZOk (name u))
    by (symmetry; apply checks_pass; unfold min_len, max_len;
        repeat constructor; cbn [fst]; apply Nat.leb_le; lia).
  replace (number_ [int_; positive_] (Some (JNum (createdAt u)))) with (ZOk (createdAt u))
    by (symmetry; apply checks_pass; unfold int_, positive_;
        repeat constructor; cbn [fst]; [exact Hi | apply Z.ltb_lt, Hp]).
  rewrite UserStatsSchema_accepts by exact Hs.
  destruct u as [i n c s [p|]]; cbn [preferences option_map optional zmap];
    [rewrite UserPreferencesSchema_accepts|]; reflexivity.
Qed.

Lemma validateBackup_output data b :
  validateBackup data = Some b -> validateBackup (backup_to_json b) = Some b.
Proof.
  unfold validateBackup. destruct (BackupDataSchema (Some data)) as [b'|] eqn:E;
    intros H; inversion H; subst; clear H.
  destruct data; cbn [BackupDataSchema object_] in E; try discriminate.
  invert_zap E. apply field_ok in Hx, Hx0, Hx1.
  apply string_ok in Hx1. apply number_ok in Hx0.
  unfold backup_to_json. cbn [BackupDataSchema object_]. unfold field.
  cbn [prop_lookup String.eqb Ascii.eqb Bool.eqb andb version timestamp user].
  rewrite Hx1, Hx0.
  destruct a as [u|].
  - apply nullable_some, UserProfileSchema_output in Hx.
    cbn [nullable]. unfold profile_to_json at 1. fold (profile_to_json u). rewrite Hx. reflexivity.
  - reflexivity.
Qed.

Lemma stringify_nonempty j : String.eqb (stringify j) "" = false.
Proof.
  unfold stringify. destruct (TextFacts.print_head j) as (c & r & -> & _). reflexivity.
Qed.

Lemma validateName_ok nm : validateName nm = None -> trim nm = nm /\ (1 <= String.length nm <= 20)%nat.
Proof.
  unfold validateName.
  destruct (String.eqb nm "") eqn:E0; [discriminate|].
  destruct (Nat.ltb 20 (String.length nm)) eqn:E1; [discriminate|].
  destruct (negb (validCharPattern nm)); [discriminate|].
  destruct (String.eqb nm (trim nm)) eqn:E2; [|discriminate]. intros _.
  apply String.eqb_eq in E2. apply Nat.ltb_ge in E1. split; [congruence|].
  destruct nm; [discriminate | cbn [String.length] in *; lia].
Qed.

Lemma validateBackup_envelope v t uj :
  validateBackup (JObj [("version", JStr v); ("timestamp", JNum t); ("user", uj)]) =
    match nullable UserProfileSchema (Some uj) with
    | ZOk o => Some (mkBackupData v t o)
    | ZErr _ => None
    end.
Proof.
  unfold validateBackup, BackupDataSchema, object_, field.
  cbn [prop_lookup String.eqb Ascii.eqb Bool.eqb andb].
  unfold string_, number_, checks. cbn [flat_map].
  destruct (nullable UserProfileSchema (Some uj)); reflexivity.
Qed.

Lemma importBackup_write data b st :
  validateBackup data = Some b ->
  let w := match user b with
           | Some u => setItem USER_PROFILE (stringify (profile_to_json u)) st
           | None => removeItem USER_PROFILE st
           end in
  importBackup data st = (match fst w with Ok _ => Ok true | Throw _ => Ok false end, snd w) /\
  (forall e, fst w = Throw e -> snd w = st).
Proof.
  intros Hv w. unfold importBackup. rewrite Hv.
  destruct (user b) as [u|] eqn:Hu; subst w.
  - pose proof (validateBackup_user_output _ _ _ Hv Hu) as Hs.
    unfold try_catch, bind. rewrite Hs. cbn [zparse ret].
    destruct st as [|m q]; [cbn; repeat split; intros; congruence|].
    unfold setItem.
    destruct (N.leb (store_size (<[USER_PROFILE := stringify (profile_to_json u)]> m)) q).
    + unfold getItem. cbn beta iota. rewrite lookup_insert_eq. unfold parseM.
      rewrite json_parse_stringify. cbn. split; [reflexivity | intros; congruence].
    + cbn. repeat split; intros; congruence.
  - unfold try_catch, bind. destruct st as [|m q]; cbn; repeat split; intros; congruence.
Qed.

Lemma App_decode o :
  (forall u, o = Some u -> exists v, UserProfileSchema v = ZOk u) ->
  nullable UserProfileSchema (Some (user_json o)) = ZOk o.
Proof.
  destruct o as [u|]; [|reflexivity]. intros H. destruct (H u eq_refl) as (v & Hv).
  apply UserProfileSchema_output in Hv. cbn [user_json nullable].
  unfold profile_to_json at 1. fold (profile_to_json u). rewrite Hv. reflexivity.
Qed.

Definition App_loaded (m : gmap string string) : option UserProfile :=
  match m !! USER_PROFILE with
  | Some s =>
      if String.eqb s "" then None
      else match json_parse s with
           | Some j => match nullable UserProfileSchema (Some j) with ZOk o => o | ZErr _ => None end
           | None => None
           end
  | None => None
  end.

Lemma App_mount_eq st :
  App_mount st =
  match st with
  | Unavailable => (Ok None, Unavailable)
  | Available m q =>
      let text := stringify (user_json (App_loaded m)) in
      (Ok (App_loaded m),
       if N.leb (store_size (<[USER_PROFILE := text]> m)) q
       then Available (<[USER_PROFILE := text]> m) q else Available m q)
  end.
Proof.
  destruct st as [|m q]; [reflexivity|].
  unfold App_mount, useLocalStorage_mount, App_loaded.
  unfold bind at 1.
  replace (loadFromLocalStorage USER_PROFILE (fun j => nullable UserProfileSchema (Some j)) (Available m q))
    with (@Ok (option (option UserProfile))
            (match m !! USER_PROFILE with
             | Some s => if String.eqb s "" then None
                         else match json_parse s with
                              | Some j => match nullable UserProfileSchema (Some j) with
                                          | ZOk t => Some t | ZErr _ => None end
                              | None => None end
             | None => None end), Available m q).
  2:{ unfold loadFromLocalStorage, try_catch, bind, getItem, truthy_string.
      destruct (m !! USER_PROFILE) as [s|]; [|reflexivity].
      destruct (String.eqb s ""); [reflexivity|]. unfold parseM.
      destruct (json_parse s) as [j|]; [|reflexivity].
      unfold ret at 1. destruct (nullable UserProfileSchema (Some j)); reflexivity. }
  cbv beta iota zeta.
  set (loaded := match m !! USER_PROFILE with
                 | Some s => if String.eqb s "" then None
                             else match json_parse s with
                                  | Some j => match nullable UserProfileSchema (Some j) with
                                              | ZOk o => o | ZErr _ => None end
                                  | None => None end
                 | None => None end).
  assert (Hst : match (match m !! USER_PROFILE with
             | Some s => if String.eqb s "" then None
                         else match json_parse s with
                              | Some j => match nullable UserProfileSchema (Some j) with
                                          | ZOk t => Some t | ZErr _ => None end
                              | None => None end
             | None => None end) with
             | Some t => if App_is_null t then None else t
             | None => None end = loaded).
  { subst loaded. destruct (m !! USER_PROFILE) as [s|]; [|reflexivity].
    destruct (String.eqb s ""); [reflexivity|]. destruct (json_parse s) as [j|]; [|reflexivity].
    destruct (nullable UserProfileSchema (Some j)) as [[u|]|]; reflexivity. }
  rewrite Hst. unfold bind, saveToLocalStorage, try_catch, bind, lift, App_stringify, ret, setItem.
  destruct (N.leb _ q); reflexivity.
Qed.

Lemma string_nil_eq v a : string_ [] v = ZOk a -> v = Some (JStr a).
Proof.
  destruct v as [[]|]; cbn; intros H; try discriminate.
  inversion H. reflexivity.
Qed.

Lemma number_nil_eq v a : number_ [] v = ZOk a -> v = Some (JNum a).
Proof.
  destruct v as [[]|]; cbn; intros H; try discriminate.
  inversion H. reflexivity.
Qed.

Lemma nullable_none {A} (s : schema A) v : nullable s v = ZOk None -> v = Some JNull.
Proof.
  unfold nullable. destruct v as [[]|]; try reflexivity;
  intros H; apply zmap_ok in H as (a' & _ & H'); discriminate.
Qed.

Lemma loadBackupFromFile_valid f b :
  loadBackupFromFile f = Some b -> validateBackup (backup_to_json b) = Some b.
Proof.
  unfold loadBackupFromFile. destruct f as [text|]; [|discriminate].
  destruct (json_parse text) as [data|]; [|discriminate].
  apply validateBackup_output.
Qed.

Lemma handleFileChange_eq f c st :
  handleFileChange (Some f) c st =
  match loadBackupFromFile f with
  | None => (Ok (ShowMessage "Invalid backup file"), st)
  | Some b =>
      if c then
        let w := match user b with
                 | Some u => setItem USER_PROFILE (stringify (profile_to_json u)) st
                 | None => removeItem USER_PROFILE st
                 end in
        match w with
        | (Ok _, st') => (Ok Reload, st')
        | (Throw _, _) => (Ok (ShowMessage "Failed to restore backup"), st)
        end
      else (Ok Cancelled, st)
  end.
Proof.
  unfold handleFileChange. destruct (loadBackupFromFile f) as [b|] eqn:Hl; [|reflexivity].
  destruct c; [|reflexivity].
  destruct (importBackup_write _ _ st (loadBackupFromFile_valid _ _ Hl)) as [E Ht].
  cbv zeta in *. unfold try_catch, bind. rewrite E.
  destruct (user b) as [u|];
    [destruct (setItem USER_PROFILE (stringify (profile_to_json u)) st) as [[[]|e] st'] eqn:Hw
    |destruct (removeItem USER_PROFILE st) as [[[]|e] st'] eqn:Hw];
    cbn [fst snd] in *; try reflexivity;
    rewrite (Ht e eq_refl); reflexivity.
Qed.

Lemma App_loaded_stored m o :
  (forall u, o = Some u -> exists v, UserProfileSchema v = ZOk u) ->
  m !! USER_PROFILE = Some (stringify (user_json o)) -> App_loaded m = o.
Proof.
  intros Hv Hm. unfold App_loaded. rewrite Hm, stringify_nonempty, json_parse_stringify.
  rewrite (App_decode o Hv). reflexivity.
Qed.

Lemma exportBackup_reads now st :
  snd (exportBackup now st) = st /\
  forall b, fst (exportBackup now st) = Ok b -> ex_timestamp b = Dec now 0.
Proof.
  unfold exportBackup, bind, getItem.
  destruct st as [|m q]; [split; [reflexivity | intros b H; inversion H]|].
  cbv beta iota.
  destruct (truthy_string (m !! USER_PROFILE)) as [s|];
    [unfold parseM; destruct (json_parse s)|];
    cbn; (split; [reflexivity | intros b H; inversion H; reflexivity]).
Qed.

End ModelFacts.

(* ------------------------------------------------------------------ *)
(** * Further properties of the code *)

(** [isLocalStorageAvailable] reports [true] exactly when the test write
    fits in the store; afterwards the test key is absent, so a value that
    was stored under it before is gone, and on failure nothing changes. *)
Theorem isLocalStorageAvailable_spec (st : storage) :
  isLocalStorageAvailable st =
    match st with
    | Unavailable => (Ok false, Unavailable)
    | Available m q =>
        if N.leb (store_size (<["__localStorage_test__" := "__localStorage_test__"]> m)) q
        then (Ok true, Available (delete "__localStorage_test__" m) q)
        else (Ok false, Available m q)
    end.
Proof.
  destruct st as [|m q]; [reflexivity|].
  unfold isLocalStorageAvailable, try_catch, bind, setItem, removeItem, ret.
  destruct (N.leb _ q); [|reflexivity].
  cbn. rewrite delete_insert_eq. reflexivity.
Qed.

(** [removeFromLocalStorage] never throws; afterwards the key is absent
    and every other key reads as before. *)
Theorem removeFromLocalStorage_frame (key : string) (st : storage) :
  fst (removeFromLocalStorage key st) = Ok tt /\
  forall k, stored (snd (removeFromLocalStorage key st)) k =
            if String.eqb k key then None else stored st k.
Proof.
  destruct st as [|m q]; split; try reflexivity; intros k.
  - destruct (String.eqb k key); reflexivity.
  - cbn. destruct (String.eqb_spec k key) as [->|Hk].
    + apply lookup_delete_eq.
    + apply lookup_delete_ne. congruence.
Qed.



(** The result of [UserProfileSchema] on an object depends only on the
    five properties it declares: extra or reordered properties that leave
    these lookups unchanged give the same result. *)
Theorem UserProfileSchema_known_keys (l l' : list (string * json)) :
  (forall k, In k ["id"; "name"; "createdAt"; "stats"; "preferences"]%string ->
             prop_lookup k l = prop_lookup k l') ->
  UserProfileSchema (Some (JObj l)) = UserProfileSchema (Some (JObj l')).
Proof.
  intros H. cbn [UserProfileSchema object_]. unfold field.
  rewrite !H by (cbn; auto 10). reflexivity.
Qed.

Definition mock_fields : list (string * json) :=
  match profile_to_json mockUser with JObj l => l | _ => [] end.

Lemma UserProfileSchema_known_keys_witness :
  UserProfileSchema (Some (JObj (mock_fields ++ [("role", JStr "admin")]%string))) =
  UserProfileSchema (Some (JObj mock_fields)) /\
  UserProfileSchema (Some (JObj mock_fields)) = ZOk mockUser.
Proof.
  split; [|vm_compute; reflexivity].
  apply UserProfileSchema_known_keys.
  intros k Hk. cbn in Hk.
  destruct Hk as [<-|[<-|[<-|[<-|[<-|[]]]]]]; vm_compute; reflexivity.
Defined.

(** [validateBackup] accepts a value exactly when it is an object whose
    [version] is a string, whose [timestamp] is a number and whose [user]
    is [null] or a value [UserProfileSchema] accepts; other properties are
    ignored, and a missing [user] is rejected. *)
Theorem validateBackup_spec (data : json) (b : BackupData) :
  validateBackup data = Some b <->
  exists l, data = JObj l /\
    prop_lookup "version" l = Some (JStr (version b)) /\
    prop_lookup "timestamp" l = Some (JNum (timestamp b)) /\
    match user b with
    | None => prop_lookup "user" l = Some JNull
    | Some u => exists uj, prop_lookup "user" l = Some uj /\ UserProfileSchema (Some uj) = ZOk u
    end.
Proof.
  split.
  - unfold validateBackup. destruct (BackupDataSchema (Some data)) as [b'|] eqn:E;
      intros H; inversion H; subst; clear H.
    destruct data as [| | | | |l]; cbn [BackupDataSchema object_] in E; try discriminate.
    SchemaFacts.invert_zap E. apply SchemaFacts.field_ok in Hx, Hx0, Hx1.
    apply ModelFacts.string_nil_eq in Hx1. apply ModelFacts.number_nil_eq in Hx0.
    exists l. cbn [version timestamp user]. repeat split; [assumption|assumption|].
    destruct a as [u|].
    + exists (match prop_lookup "user" l with Some uj => uj | None => JNull end).
      apply SchemaFacts.nullable_some in Hx.
      destruct (prop_lookup "user" l); [split; [reflexivity|exact Hx]|discriminate].
    + exact (ModelFacts.nullable_none _ _ Hx).
  - intros (l & -> & E1 & E2 & E3). destruct b as [v t o]. cbn [version timestamp user] in *.
    unfold validateBackup. cbn [BackupDataSchema object_]. unfold field.
    rewrite E1, E2. cbn [string_ number_ checks flat_map].
    destruct o as [u|].
    + destruct E3 as (uj & E3 & Hu). rewrite E3.
      destruct uj; try (cbn [nullable]; rewrite Hu; reflexivity).
      cbn in Hu. discriminate.
    + rewrite E3. reflexivity.
Qed.

(** Importing the same backup twice leaves the same result and store as
    importing it once. *)
Theorem importBackup_idempotent (data : json) (st : storage) :
  importBackup data (snd (importBackup data st)) = importBackup data st.
Proof.
  destruct (validateBackup data) as [b|] eqn:Hv.
  2:{ unfold importBackup. rewrite Hv. reflexivity. }
  destruct (ModelFacts.importBackup_write data b st Hv) as [E _].
  destruct (ModelFacts.importBackup_write data b (snd (importBackup data st)) Hv) as [E' _].
  rewrite E'. rewrite E. cbn [snd].
  destruct (user b) as [u|]; destruct st as [|m q]; try reflexivity.
  - unfold setItem.
    destruct (N.leb (store_size (<[USER_PROFILE := stringify (profile_to_json u)]> m)) q) eqn:Hq;
      cbn [fst snd].
    + rewrite insert_insert_eq, Hq. reflexivity.
    + rewrite Hq. reflexivity.
  - cbn. rewrite delete_delete_eq. reflexivity.
Qed.

(** When a file was chosen, [handleFileChange] (with the user's answer to
    the confirmation dialog) shows "Invalid backup file" for unreadable or
    rejected contents and "Cancelled" without confirmation, leaving the
    store unchanged; on confirmation it performs exactly one write of the
    profile key (a set, or a removal for a backup without user) and reloads
    on success, or reports "Failed to restore backup" with the store
    unchanged. The "Error reading backup file" branch is never taken. *)
Theorem handleFileChange_spec (f : option string) (confirmed : bool) (st : storage) :
  handleFileChange (Some f) confirmed st =
  match loadBackupFromFile f with
  | None => (Ok (ShowMessage "Invalid backup file"), st)
  | Some b =>
      if confirmed then
        let w := match user b with
                 | Some u => setItem USER_PROFILE (stringify (profile_to_json u)) st
                 | None => removeItem USER_PROFILE st
                 end in
        match w with
        | (Ok _, st') => (Ok Reload, st')
        | (Throw _, _) => (Ok (ShowMessage "Failed to restore backup"), st)
        end
      else (Ok Cancelled, st)
  end.
Proof. exact (ModelFacts.handleFileChange_eq f confirmed st). Qed.

(** A backup downloaded from a store whose profile text parses to a value
    the schema accepts reads the store without changing it, is loaded back
    by [loadBackupFromFile] as that profile, and a confirmed restore of it
    into any available store where the write fits stores the profile and
    reloads. *)
Theorem download_restore_roundtrip (now : Z) (m : gmap string string) (q : N)
    (s : string) (j : json) (u : UserProfile) (m2 : gmap string string) (q2 : N) :
  Z.abs now <= 8640000000000000 ->
  m !! USER_PROFILE = Some s ->
  json_parse s = Some j ->
  UserProfileSchema (Some j) = ZOk u ->
  N.leb (store_size (<[USER_PROFILE := stringify (profile_to_json u)]> m2)) q2 = true ->
  exists text,
    downloadBackup now (Available m q) = (Ok text, Available m q) /\
    loadBackupFromFile (Some text) = Some (mkBackupData "1.0.0" (Dec now 0) (Some u)) /\
    handleFileChange (Some (Some text)) true (Available m2 q2) =
      (Ok Reload, Available (<[USER_PROFILE := stringify (profile_to_json u)]> m2) q2).
Proof.
  intros Hnow Hm Hj Hu Hq.
  assert (Hb : (Z.abs now <=? 8640000000000000) = true) by (apply Z.leb_le; exact Hnow).
  assert (Hne : String.eqb s "" = false).
  { destruct (String.eqb_spec s "") as [->|]; [vm_compute in Hj; discriminate | reflexivity]. }
  assert (Hn : nullable UserProfileSchema (Some j) = ZOk (Some u)).
  { destruct j; try (cbn [nullable]; rewrite Hu; reflexivity). cbn in Hu. discriminate. }
  exists (stringify_indent (exported_to_json (mkExportedBackup "1.0.0" (Dec now 0) j))).
  assert (Hl : loadBackupFromFile (Some (stringify_indent (exported_to_json
                 (mkExportedBackup "1.0.0" (Dec now 0) j)))) =
               Some (mkBackupData "1.0.0" (Dec now 0) (Some u))).
  { unfold loadBackupFromFile. rewrite json_parse_stringify_indent.
    unfold exported_to_json. cbn [ex_version ex_timestamp ex_user].
    rewrite ModelFacts.validateBackup_envelope, Hn. reflexivity. }
  split; [|split; [exact Hl|]].
  - unfold downloadBackup, exportBackup, bind, getItem. rewrite Hm.
    cbv beta iota zeta. unfold truthy_string. rewrite Hne. unfold parseM. rewrite Hj.
    unfold ret. cbv beta iota zeta. cbn [ex_timestamp mant]. rewrite Hb. reflexivity.
  - rewrite ModelFacts.handleFileChange_eq, Hl. cbv zeta. cbn [user].
    unfold setItem. rewrite Hq. reflexivity.
Qed.

Lemma download_restore_roundtrip_witness :
  let m := <[USER_PROFILE := stringify (profile_to_json mockUser)]> (∅ : gmap string string) in
  exists text,
    downloadBackup 1700000000001 (Available m 100000%N) = (Ok text, Available m 100000%N) /\
    loadBackupFromFile (Some text) = Some (mkBackupData "1.0.0" (Dec 1700000000001 0) (Some mockUser)) /\
    handleFileChange (Some (Some text)) true (Available ∅ 100000%N) =
      (Ok Reload, Available (<[USER_PROFILE := stringify (profile_to_json mockUser)]> ∅) 100000%N).
Proof.
  intros m.
  apply (download_restore_roundtrip 1700000000001 m 100000%N
           (stringify (profile_to_json mockUser)) (profile_to_json mockUser) mockUser ∅ 100000%N);
    first [lia | vm_compute; reflexivity].
Defined.

(** A backup downloaded from a store with no profile holds a [null]
    user; a confirmed restore of it deletes the profile key of the target
    store (a reset rather than a no-op) and reloads. *)
Theorem download_empty_restore_deletes (now : Z) (m : gmap string string) (q : N)
    (m2 : gmap string string) (q2 : N) :
  Z.abs now <= 8640000000000000 ->
  m !! USER_PROFILE = None ->
  exists text,
    downloadBackup now (Available m q) = (Ok text, Available m q) /\
    loadBackupFromFile (Some text) = Some (mkBackupData "1.0.0" (Dec now 0) None) /\
    handleFileChange (Some (Some text)) true (Available m2 q2) =
      (Ok Reload, Available (delete USER_PROFILE m2) q2).
Proof.
  intros Hnow Hm.
  assert (Hb : (Z.abs now <=? 8640000000000000) = true) by (apply Z.leb_le; exact Hnow).
  exists (stringify_indent (exported_to_json (mkExportedBackup "1.0.0" (Dec now 0) JNull))).
  assert (Hl : loadBackupFromFile (Some (stringify_indent (exported_to_json
                 (mkExportedBackup "1.0.0" (Dec now 0) JNull)))) =
               Some (mkBackupData "1.0.0" (Dec now 0) None)).
  { unfold loadBackupFromFile. rewrite json_parse_stringify_indent.
    unfold exported_to_json. cbn [ex_version ex_timestamp ex_user].
    rewrite ModelFacts.validateBackup_envelope. reflexivity. }
  split; [|split; [exact Hl|]].
  - unfold downloadBackup, exportBackup, bind, getItem. rewrite Hm.
    unfold truthy_string, ret. cbv beta iota zeta. cbn [ex_timestamp mant].
    rewrite Hb. reflexivity.
  - rewrite ModelFacts.handleFileChange_eq, Hl. reflexivity.
Qed.

Lemma download_empty_restore_deletes_witness :
  exists text,
    downloadBackup 5 (Available ∅ 10%N) = (Ok text, Available ∅ 10%N) /\
    loadBackupFromFile (Some text) = Some (mkBackupData "1.0.0" (Dec 5 0) None) /\
    handleFileChange (Some (Some text)) true
      (Available (<[USER_PROFILE := "x"]> ∅) 100%N) =
      (Ok Reload, Available (delete USER_PROFILE (<[USER_PROFILE := "x"]> ∅)) 100%N).
Proof.
  apply (download_empty_restore_deletes 5 ∅ 10%N (<[USER_PROFILE := "x"]> ∅) 100%N);
    first [lia | vm_compute; reflexivity].
Defined.

(** [handleSubmit] on a name [validateName] accepts, with a UUID and a
    positive time, creates a profile with exactly that name and id which
    [UserProfileSchema] accepts back unchanged. *)
Theorem handleSubmit_creates_valid (nm newId : string) (now : Z) :
  validateName nm = None -> fst (uuid newId) = true -> 0 < now ->
  exists u, handleSubmit nm newId now = inr u /\ name u = nm /\ id u = newId /\
    UserProfileSchema (Some (profile_to_json u)) = ZOk u.
Proof.
  intros Hn Hid Hnow. destruct (ModelFacts.validateName_ok nm Hn) as [Ht Hlen].
  eexists. split; [unfold handleSubmit; rewrite Hn; reflexivity|].
  cbn [name id]. split; [exact Ht|]. split; [reflexivity|].
  apply ModelFacts.UserProfileSchema_accepts. unfold ModelFacts.profile_checks.
  cbn [id name createdAt stats mant new_stats]. rewrite Ht.
  split; [exact Hid|]. split; [exact Hlen|]. split; [reflexivity|]. split; [exact Hnow|].
  repeat (constructor; [unfold ModelFacts.count_ok; split; [reflexivity|cbn; lia]|]).
  constructor.
Qed.

Lemma handleSubmit_creates_valid_witness :
  validateName "Alice" = None /\ fst (uuid "123e4567-e89b-12d3-a456-426614174000") = true /\
  exists u, handleSubmit "Alice" "123e4567-e89b-12d3-a456-426614174000" 1700000000000 = inr u /\
    name u = "Alice" /\ id u = "123e4567-e89b-12d3-a456-426614174000" /\
    UserProfileSchema (Some (profile_to_json u)) = ZOk u.
Proof.
  split; [vm_compute; reflexivity|]. split; [vm_compute; reflexivity|].
  apply handleSubmit_creates_valid; [vm_compute; reflexivity | vm_compute; reflexivity | lia].
Defined.

(** [handleSave] on a profile the schema accepts and a name [validateName]
    accepts changes only the name, to exactly that name, and the result is
    still accepted by [UserProfileSchema]. *)
Theorem handleSave_keeps_valid (user0 : UserProfile) (nm : string) :
  (exists v, UserProfileSchema v = ZOk user0) -> validateName nm = None ->
  handleSave user0 nm =
    inr (mkUserProfile (id user0) nm (createdAt user0) (stats user0) (preferences user0)) /\
  UserProfileSchema (Some (profile_to_json
    (mkUserProfile (id user0) nm (createdAt user0) (stats user0) (preferences user0)))) =
  ZOk (mkUserProfile (id user0) nm (createdAt user0) (stats user0) (preferences user0)).
Proof.
  intros [v Hv] Hn. destruct (ModelFacts.validateName_ok nm Hn) as [Ht Hlen].
  apply ModelFacts.UserProfileSchema_inv in Hv as (Hu & _ & Hi & Hp & Hs).
  split; [unfold handleSave; rewrite Hn, Ht; reflexivity|].
  apply ModelFacts.UserProfileSchema_accepts. unfold ModelFacts.profile_checks.
  cbn [id name createdAt stats].
  split; [exact Hu|]. split; [exact Hlen|]. split; [exact Hi|]. split; [exact Hp | exact Hs].
Qed.

Lemma handleSave_keeps_valid_witness :
  validateName "Bob" = None /\
  handleSave mockUser "Bob" =
    inr (mkUserProfile (id mockUser) "Bob" (createdAt mockUser) (stats mockUser) (preferences mockUser)) /\
  UserProfileSchema (Some (profile_to_json
    (mkUserProfile (id mockUser) "Bob" (createdAt mockUser) (stats mockUser) (preferences mockUser)))) =
  ZOk (mkUserProfile (id mockUser) "Bob" (createdAt mockUser) (stats mockUser) (preferences mockUser)).
Proof.
  split; [vm_compute; reflexivity|].
  apply handleSave_keeps_valid;
    [exists (Some (profile_to_json mockUser)); vm_compute; reflexivity | vm_compute; reflexivity].
Defined.

(** On mount, [App] reads the stored profile: it is the profile when the
    text is non-empty JSON that [UserProfileSchema] accepts, and [None]
    for a missing, empty, malformed or rejected entry or [null]; it then
    writes the state back, so a corrupt entry is replaced by the text
    ["null"], unless the write does not fit. Without storage it starts with
    [None] and nothing happens. *)
Theorem App_mount_spec (st : storage) :
  App_mount st =
  match st with
  | Unavailable => (Ok None, Unavailable)
  | Available m q =>
      let loaded :=
        match m !! USER_PROFILE with
        | Some s =>
            if String.eqb s "" then None
            else match json_parse s with
                 | Some j => match nullable UserProfileSchema (Some j) with
                             | ZOk o => o | ZErr _ => None end
                 | None => None
                 end
        | None => None
        end in
      let text := stringify (user_json loaded) in
      (Ok loaded,
       if N.leb (store_size (<[USER_PROFILE := text]> m)) q
       then Available (<[USER_PROFILE := text]> m) q else Available m q)
  end.
Proof. rewrite ModelFacts.App_mount_eq. reflexivity. Qed.

(** A state [App] saved with [setSavedUser] (a schema-accepted profile
    or [None]), when the write fits, is the state the next mount starts
    with, and that mount leaves the store as it was. *)
Theorem App_setSavedUser_mount (o : option UserProfile) (m : gmap string string) (q : N) :
  (forall u, o = Some u -> exists v, UserProfileSchema v = ZOk u) ->
  N.leb (store_size (<[USER_PROFILE := stringify (user_json o)]> m)) q = true ->
  App_mount (snd (App_setSavedUser o (Available m q))) =
    (Ok o, Available (<[USER_PROFILE := stringify (user_json o)]> m) q).
Proof.
  intros Hv Hq.
  assert (E : snd (App_setSavedUser o (Available m q)) =
              Available (<[USER_PROFILE := stringify (user_json o)]> m) q).
  { unfold App_setSavedUser, useLocalStorage_set, saveToLocalStorage, try_catch, bind,
      lift, App_stringify, ret, setItem.
    rewrite Hq. reflexivity. }
  rewrite E, ModelFacts.App_mount_eq.
  rewrite (ModelFacts.App_loaded_stored _ o Hv) by apply lookup_insert_eq.
  cbv zeta. rewrite insert_insert_eq, Hq. reflexivity.
Qed.

Lemma App_setSavedUser_mount_witness :
  App_mount (snd (App_setSavedUser (Some mockUser) (Available ∅ 100000%N))) =
    (Ok (Some mockUser),
     Available (<[USER_PROFILE := stringify (user_json (Some mockUser))]> ∅) 100000%N).
Proof.
  apply App_setSavedUser_mount; [|vm_compute; reflexivity].
  intros u [= <-]. exists (Some (profile_to_json mockUser)). vm_compute. reflexivity.
Defined.

(** A store whose profile entry is the text [App] itself writes for a
    state (a schema-accepted profile or [None]) is a fixed point of the
    mount: the state is read back and the store is not changed. *)
Theorem App_mount_stable (o : option UserProfile) (m : gmap string string) (q : N) :
  (forall u, o = Some u -> exists v, UserProfileSchema v = ZOk u) ->
  m !! USER_PROFILE = Some (stringify (user_json o)) ->
  App_mount (Available m q) = (Ok o, Available m q).
Proof.
  intros Hv Hm. rewrite ModelFacts.App_mount_eq.
  rewrite (ModelFacts.App_loaded_stored m o Hv Hm).
  cbv zeta. rewrite insert_id by exact Hm. destruct (N.leb _ q); reflexivity.
Qed.

Lemma App_mount_stable_witness :
  let m := <[USER_PROFILE := stringify (user_json (Some mockUser))]> (∅ : gmap string string) in
  App_mount (Available m 0%N) = (Ok (Some mockUser), Available m 0%N).
Proof.
  intros m. apply App_mount_stable; [|vm_compute; reflexivity].
  intros u [= <-]. exists (Some (profile_to_json mockUser)). vm_compute. reflexivity.
Defined.

(** [downloadBackup] only reads the store. When the export succeeds, it
    either yields a text that parses back to exactly the exported backup
    (a timestamp within the range of a [Date]) or throws a [RangeError]
    (a timestamp outside it); when the export throws, it throws the same
    error. *)
Theorem downloadBackup_spec (now : Z) (st : storage) :
  snd (downloadBackup now st) = st /\
  match fst (downloadBackup now st), fst (exportBackup now st) with
  | Ok text, Ok b => Z.abs now <= 8640000000000000 /\ json_parse text = Some (exported_to_json b)
  | Throw e, Ok _ => e = RangeError /\ 8640000000000000 < Z.abs now
  | Throw e, Throw e' => e = e'
  | Ok _, Throw _ => False
  end.
Proof.
  unfold downloadBackup, bind.
  destruct (ModelFacts.exportBackup_reads now st) as [Hs Ht].
  destruct (exportBackup now st) as [[b|e] st'] eqn:E; cbn [fst snd] in Hs, Ht; subst st'.
  - specialize (Ht b eq_refl). cbv zeta. rewrite Ht. cbn [mant].
    destruct (Z.leb_spec (Z.abs now) 8640000000000000) as [H|H]; unfold ret, throw; cbv beta iota; cbn [fst snd].
    + split; [reflexivity|]. split; [exact H | apply json_parse_stringify_indent].
    + split; [reflexivity|]. split; [reflexivity | exact H].
  - cbn. split; reflexivity.
Qed.
